(** * The GrabCraft scraper: crawl, checkpoint and resume

    A shallow embedding of [src/scraper/scraper.py] (class [Scraper]) and of
    the entry point [scripts/run_scraper.py].

    The Python object mutates three things: its own attributes, the files under
    the output directory, and the network.  They are modelled as

    - a record [St] holding [self.metadata], the local dictionary [results] of
      [scrape], the disk, and the trace of what the process did so far;
    - a record [World] holding everything the process does not control: the
      site, the clock, the refusals of the disk and what they leave behind,
      and the moment the process is killed, if ever;
    - a monad [M] over [St] whose computations end in a value, in a raised
      exception, or in the death of the process.

    Strings are byte strings, one byte for one character: the model reads
    titles and tag texts as ASCII.  [str.isalnum] and [str.strip] consult the
    Unicode database on other characters, which is not modelled. *)

From Stdlib Require Import String Ascii List Bool Arith Lia.
From Stdlib Require Import Permutation Sorted DecimalString.
Import ListNotations.
Local Open Scope string_scope.
Local Open Scope list_scope.

Set Implicit Arguments.

(** ** Data *)

(** [build_info]: the dictionary built by [_extract_build_info] and enriched by
    [extract_builds_from_category] and [download_all_images_for_build].  A key
    that is absent in Python holds the default its readers pass to [.get]. *)
Record Build : Type := {
  title : string;
  build_url : string;
  tags : list string;
  category_url : string;
  scraped_at : string;
  image_urls : list string;
  local_image_paths : list string;
  images_count : nat;
  build_directory : option string
}.

(** The dictionary written by [_save_checkpoint]. *)
Record Checkpoint : Type := {
  current_category_idx : nat;
  current_build_idx : nat;
  total_categories : nat;
  timestamp : string;
  total_builds_processed : nat
}.

(** The dictionary [results] of [scrape].  [average_images_per_build] is a
    rounded float and is left out. *)
Record Results : Type := {
  total_builds : nat;
  successful_builds : nat;
  failed_builds : nat;
  total_images_downloaded : nat;
  started_at : string
}.

(** What BeautifulSoup finds in a page, one field per query of the source. *)
Record Html : Type := {
  (* the href of the first <a href> of every <li class="cats-..."> *)
  cats_links : list string;
  (* per <div class="...product-box...">: text and href of h3.name > a *)
  product_boxes : list (option (string * string));
  (* the src of every <img> under <div id="main_pics"> *)
  main_pics : option (list string);
  (* the text of <td class="value tags"> *)
  tags_td : option string
}.

(** A file on disk, as [open] and [json.load] see it. *)
Inductive file (A : Type) : Type :=
| Missing
| Unreadable
| Malformed
| Holds (content : A).
Arguments Missing {A}.
Arguments Unreadable {A}.
Arguments Malformed {A}.

Record Disk : Type := {
  metadata_file : file (list Build);
  checkpoint_file : file Checkpoint;
  image_files : list string
}.

Inductive exn : Type :=
| RequestException
| OSError
| JSONDecodeError
| UnboundLocalError
| ValueError
| Exception (msg : string).

(** What the process does that can be seen from outside: requests, writes,
    and the log lines that mark its progress. *)
Inductive Event : Type :=
| EFetch (url : string)
| EImageFetch (url save_path : string)
| EWriteMetadata (builds : list Build)
| EWriteCheckpoint (checkpoint : Checkpoint)
| EUnlinkCheckpoint
| LogCategory (cat_idx : nat)
| LogBuild (build_idx : nat)
| LogNoCategories
| LogCompleted.

Record St : Type := {
  disk : Disk;
  metadata : list Build;
  results : Results;
  trace : list Event
}.

Record World : Type := {
  (* requests.get(url) in fetch_page: None for a RequestException or an empty body *)
  pages : string -> option Html;
  (* urllib.parse.urljoin(base, href) when it returns *)
  urljoin : string -> string -> string;
  (* urljoin(base, href) raises ValueError instead, as on 'http://[' *)
  urljoin_raises : string -> string -> bool;
  (* the image at that URL is fetched and decoded *)
  image_ok : string -> bool;
  (* datetime.now().isoformat() when the trace has that length *)
  now : nat -> string;
  (* the disk refuses the write or unlink made when the trace has that length *)
  write_fails : nat -> bool;
  (* that refusal came after open(path, 'w') had truncated the file *)
  write_tears : nat -> bool;
  (* the process is killed when its trace has that length *)
  kill_at : option nat
}.

(** The attributes of [self] that the methods read. *)
Record Scraper : Type := {
  base_url : string;
  images_dir : string;
  resume : bool;
  checkpoint_data : option Checkpoint
}.

(** ** The monad *)

Inductive outcome (A : Type) : Type :=
| Done (a : A)
| Raised (e : exn)
| Killed.
Arguments Raised {A}.
Arguments Killed {A}.

Definition M (A : Type) : Type := St -> outcome A * St.

Definition ret {A} (a : A) : M A := fun s => (Done a, s).

Definition bind {A B} (m : M A) (f : A -> M B) : M B :=
  fun s =>
    match m s with
    | (Done a, s') => f a s'
    | (Raised e, s') => (Raised e, s')
    | (Killed, s') => (Killed, s')
    end.

Definition raise {A} (e : exn) : M A := fun s => (Raised e, s).

(** [try: body except cls: handler]. *)
Definition try_except {A} (cls : exn -> bool) (body : M A) (handler : exn -> M A) : M A :=
  fun s =>
    match body s with
    | (Raised e, s') => if cls e then handler e s' else (Raised e, s')
    | r => r
    end.

Definition AnyException (e : exn) : bool := true.

Definition IsRequestException (e : exn) : bool :=
  match e with RequestException => true | _ => false end.

Declare Scope monad_scope.
Delimit Scope monad_scope with monad.
Notation "x <- c1 ;; c2" := (bind c1 (fun x => c2))
  (at level 100, c1 at next level, right associativity) : monad_scope.
Notation "c1 ;; c2" := (bind c1 (fun _ => c2))
  (at level 100, right associativity) : monad_scope.
Local Open Scope monad_scope.

Definition gets {A} (f : St -> A) : M A := fun s => (Done (f s), s).
Definition modify (f : St -> St) : M unit := fun s => (Done tt, f s).

Definition set_disk (d : Disk) (s : St) : St :=
  {| disk := d; metadata := metadata s; results := results s; trace := trace s |}.
Definition set_metadata (l : list Build) (s : St) : St :=
  {| disk := disk s; metadata := l; results := results s; trace := trace s |}.
Definition set_results (r : Results) (s : St) : St :=
  {| disk := disk s; metadata := metadata s; results := r; trace := trace s |}.
Definition set_trace (t : list Event) (s : St) : St :=
  {| disk := disk s; metadata := metadata s; results := results s; trace := t |}.

Definition set_metadata_file (f : file (list Build)) (d : Disk) : Disk :=
  {| metadata_file := f; checkpoint_file := checkpoint_file d; image_files := image_files d |}.
Definition set_checkpoint_file (f : file Checkpoint) (d : Disk) : Disk :=
  {| metadata_file := metadata_file d; checkpoint_file := f; image_files := image_files d |}.
Definition add_image_file (p : string) (d : Disk) : Disk :=
  {| metadata_file := metadata_file d; checkpoint_file := checkpoint_file d;
     image_files := p :: image_files d |}.

Definition exists_ {A} (f : file A) : bool :=
  match f with Missing => false | _ => true end.

(** ** Pure helpers: strings *)

Fixpoint string_filter (p : ascii -> bool) (s : string) : string :=
  match s with
  | EmptyString => EmptyString
  | String c r => if p c then String c (string_filter p r) else string_filter p r
  end.

Definition between (lo hi : nat) (c : ascii) : bool :=
  let n := nat_of_ascii c in Nat.leb lo n && Nat.leb n hi.

(* c.isalnum() for an ASCII character c *)
Definition isalnum (c : ascii) : bool :=
  between 48 57 c || between 65 90 c || between 97 122 c.

(* c.isspace() for an ASCII character c *)
Definition isspace (c : ascii) : bool :=
  between 9 13 c || between 28 32 c.

Fixpoint lstrip (s : string) : string :=
  match s with
  | String c r => if isspace c then lstrip r else s
  | EmptyString => EmptyString
  end.

Fixpoint rstrip (s : string) : string :=
  match s with
  | EmptyString => EmptyString
  | String c r =>
      match rstrip r with
      | EmptyString => if isspace c then EmptyString else String c EmptyString
      | r' => String c r'
      end
  end.

Definition strip (s : string) : string := rstrip (lstrip s).

(* s.split(sep), for a one-character separator *)
Fixpoint split (sep : ascii) (s : string) : list string :=
  match s with
  | EmptyString => [EmptyString]
  | String c r =>
      if Ascii.eqb c sep then EmptyString :: split sep r
      else match split sep r with
           | [] => [String c EmptyString]
           | h :: t => String c h :: t
           end
  end.

Definition nonempty (s : string) : bool :=
  match s with EmptyString => false | _ => true end.

(* [tag.strip() for tag in tags_text.split(',') if tag.strip()] *)
Definition parse_tags (tags_text : string) : list string :=
  map strip (filter (fun tag => nonempty (strip tag)) (split "," tags_text)).

Fixpoint zeros (n : nat) : string :=
  match n with O => EmptyString | S k => String "0" (zeros k) end.

(* f"{n:0{width}d}" *)
Definition zero_padded (width n : nat) : string :=
  let d := NilZero.string_of_uint (Nat.to_uint n) in
  (zeros (width - String.length d) ++ d)%string.

(* lines 374-375 *)
Definition build_id_of (build_idx : nat) (title : string) : string :=
  let build_id := ("build_" ++ zero_padded 5 build_idx ++ "_" ++ substring 0 30 title)%string in
  substring 0 50
    (string_filter (fun c => isalnum c || Ascii.eqb c "_" || Ascii.eqb c "-") build_id).

(* Path / name *)
Definition path_join (dir name : string) : string := (dir ++ "/" ++ name)%string.

Definition is_nil {A} (l : list A) : bool :=
  match l with [] => true | _ => false end.

Definition mem (x : string) (l : list string) : bool := existsb (String.eqb x) l.

(** Updates of one key of a dictionary. *)
Definition with_detail (detail_tags detail_images : list string) (b : Build) : Build :=
  {| title := title b; build_url := build_url b; tags := detail_tags;
     category_url := category_url b; scraped_at := scraped_at b;
     image_urls := detail_images; local_image_paths := local_image_paths b;
     images_count := images_count b; build_directory := build_directory b |}.

Definition with_images (paths : list string) (count : nat) (dir : option string)
    (b : Build) : Build :=
  {| title := title b; build_url := build_url b; tags := tags b;
     category_url := category_url b; scraped_at := scraped_at b;
     image_urls := image_urls b; local_image_paths := paths;
     images_count := count; build_directory := dir |}.

Definition count_attempt (r : Results) : Results :=
  {| total_builds := S (total_builds r); successful_builds := successful_builds r;
     failed_builds := failed_builds r;
     total_images_downloaded := total_images_downloaded r; started_at := started_at r |}.

Definition count_success (images : nat) (r : Results) : Results :=
  {| total_builds := total_builds r; successful_builds := S (successful_builds r);
     failed_builds := failed_builds r;
     total_images_downloaded := total_images_downloaded r + images;
     started_at := started_at r |}.

Definition count_failure (r : Results) : Results :=
  {| total_builds := total_builds r; successful_builds := successful_builds r;
     failed_builds := S (failed_builds r);
     total_images_downloaded := total_images_downloaded r; started_at := started_at r |}.

Definition with_total (n : nat) (r : Results) : Results :=
  {| total_builds := n; successful_builds := successful_builds r;
     failed_builds := failed_builds r;
     total_images_downloaded := total_images_downloaded r; started_at := started_at r |}.

(** ** The methods of [Scraper] *)

Section Methods.

Variable w : World.

Definition clock : M nat := gets (fun s => length (trace s)).

Definition dies_at (t : nat) : bool :=
  match kill_at w with Some k => Nat.eqb k t | None => false end.

(** Every observable action goes through [emit]; the process can be killed
    between any two of them. *)
Definition emit (e : Event) : M unit :=
  fun s =>
    if dies_at (length (trace s)) then (Killed, s)
    else (Done tt, set_trace (trace s ++ [e]) s).

(** An unlink, or the save of an image: [OSError] when the disk refuses,
    and the disk is then as it was.  The process is killed between two
    actions, never in the middle of one. *)
Definition disk_op (f : Disk -> Disk) : M unit :=
  fun s =>
    if write_fails w (length (trace s)) then (Raised OSError, s)
    else (Done tt, set_disk (f (disk s)) s).

(** with open(path, 'w') as f: json.dump(content, f).  When [open] itself is
    refused the file is as it was.  Once [open] has succeeded the file is
    truncated: a refusal after that leaves it empty or cut short, which
    [json.load] cannot parse. *)
Definition write_json {A} (set_file : file A -> Disk -> Disk) (content : A) : M unit :=
  fun s =>
    if write_fails w (length (trace s)) then
      (Raised OSError,
       if write_tears w (length (trace s)) then set_disk (set_file Malformed (disk s)) s
       else s)
    else (Done tt, set_disk (set_file (Holds content) (disk s)) s).

(* with open(path, 'r') as f: json.load(f) *)
Definition read_json {A} (f : file A) : M A :=
  match f with
  | Holds content => ret content
  | Malformed => raise JSONDecodeError
  | Missing | Unreadable => raise OSError
  end.

(* lines 69-78; {} is None *)
Definition _load_checkpoint : M (option Checkpoint) :=
  try_except AnyException
    (f <- gets (fun s => checkpoint_file (disk s)) ;;
     if exists_ f then (c <- read_json f ;; ret (Some c)) else ret None)
    (fun _ => ret None).

(* lines 80-95 *)
Definition _save_checkpoint (category_idx build_idx total : nat) : M unit :=
  try_except AnyException
    (t <- clock ;;
     n <- gets (fun s => length (metadata s)) ;;
     let checkpoint :=
       {| current_category_idx := category_idx; current_build_idx := build_idx;
          total_categories := total; timestamp := now w t;
          total_builds_processed := n |} in
     emit (EWriteCheckpoint checkpoint) ;;
     write_json set_checkpoint_file checkpoint)
    (fun _ => ret tt).

(* lines 97-105 *)
Definition _clear_checkpoint : M unit :=
  try_except AnyException
    (f <- gets (fun s => checkpoint_file (disk s)) ;;
     if exists_ f then (emit EUnlinkCheckpoint ;; disk_op (set_checkpoint_file Missing))
     else ret tt)
    (fun _ => ret tt).

(* lines 107-122 *)
Definition fetch_page (url : string) : M (option Html) :=
  try_except IsRequestException
    (emit (EFetch url) ;;
     match pages w url with
     | Some html => ret (Some html)
     | None => raise RequestException
     end)
    (fun _ => ret None).

(* lines 124-133 *)
Definition _load_metadata : M (list Build) :=
  try_except AnyException
    (f <- gets (fun s => metadata_file (disk s)) ;;
     if exists_ f then read_json f else ret [])
    (fun _ => ret []).

(* lines 135-143 *)
Definition _save_metadata : M unit :=
  try_except AnyException
    (l <- gets metadata ;;
     emit (EWriteMetadata l) ;;
     write_json set_metadata_file l)
    (fun _ => ret tt).

Variable self : Scraper.

(* lines 205-208: one link joined without error *)
Definition add_category (category_urls : list string) (href : string) : list string :=
  let full_url := urljoin w (base_url self) href in
  if mem full_url category_urls then category_urls else category_urls ++ [full_url].

(* lines 203-208: the loop over category_links[:max_categories].  It fills
   the list [category_urls] in place and ends at the first link on which
   urljoin raises; the handler of line 210 only logs, so that line 214
   returns the list as the loop left it. *)
Fixpoint add_categories (category_links : list string) (category_urls : list string)
    : list string :=
  match category_links with
  | [] => category_urls
  | href :: rest =>
      if urljoin_raises w (base_url self) href then category_urls
      else add_categories rest (add_category category_urls href)
  end.

(* lines 178-214; before the loop [category_urls] is still empty when the
   handler of line 210 is entered *)
Definition get_category_urls (max_categories : nat) : M (list string) :=
  try_except AnyException
    (home_html <- fetch_page (base_url self) ;;
     match home_html with
     | None => ret []
     | Some soup =>
         let category_links := cats_links soup in
         if is_nil category_links then raise (Exception "No category links found on the homepage")
         else ret (add_categories (firstn max_categories category_links) [])
     end)
    (fun _ => ret []).

(* lines 278-315; [item] is the anchor under h3.name, if there is one *)
Definition _extract_build_info (index : nat) (item : option (string * string))
    (category_url : string) : M (option Build) :=
  try_except AnyException
    (match item with
     | Some (text, href) =>
         if urljoin_raises w (base_url self) href then raise ValueError
         else
           let build_url := urljoin w (base_url self) href in
           let title := if nonempty text then text else "Unknown Build" in
           if nonempty build_url then
             t <- clock ;;
             ret (Some {| title := title; build_url := build_url; tags := [];
                          category_url := category_url; scraped_at := now w t;
                          image_urls := []; local_image_paths := []; images_count := 0;
                          build_directory := None |})
           else ret None
     | None =>
         (* build_url was never assigned: line 298 reads an unbound local *)
         raise UnboundLocalError
     end)
    (fun _ => ret None).

(* lines 317-354; the result {} is None *)
Definition _extract_images_and_tags (build_url : string)
    : M (option (list string * list string)) :=
  try_except AnyException
    (html <- fetch_page build_url ;;
     match html with
     | None => ret None
     | Some soup =>
         let image_urls := match main_pics soup with Some srcs => srcs | None => [] end in
         let tags := match tags_td soup with Some text => parse_tags text | None => [] end in
         ret (Some (image_urls, tags))
     end)
    (fun _ => ret (Some ([], []))).

(* lines 239-271: one iteration of the loop over build_items *)
Definition extract_build (index : nat) (item : option (string * string))
    (category_url : string) (builds : list Build) : M (list Build) :=
  try_except AnyException
    (build_info <- _extract_build_info index item category_url ;;
     match build_info with
     | None => ret builds
     | Some build_info =>
         if nonempty (build_url build_info) then
           try_except AnyException
             (detail <- _extract_images_and_tags (build_url build_info) ;;
              match detail with
              | Some (image_urls, tags) =>
                  if is_nil image_urls || is_nil tags then ret builds
                  else ret (builds ++ [with_detail tags image_urls build_info])
              | None => ret builds
              end)
             (fun _ => ret builds)
         else ret (builds ++ [build_info])
     end)
    (fun _ => ret builds).

Fixpoint extract_each (index : nat) (build_items : list (option (string * string)))
    (category_url : string) (builds : list Build) : M (list Build) :=
  match build_items with
  | [] => ret builds
  | item :: rest =>
      builds <- extract_build index item category_url builds ;;
      extract_each (S index) rest category_url builds
  end.

(* lines 216-276 *)
Definition extract_builds_from_category (category_url : string) : M (list Build) :=
  try_except AnyException
    (html <- fetch_page category_url ;;
     match html with
     | None => ret []
     | Some soup => extract_each 0 (product_boxes soup) category_url []
     end)
    (fun _ => ret []).

(* lines 415-443; a failed Image.save is taken to leave no file behind *)
Definition download_image (image_url save_path : string) : M bool :=
  try_except AnyException
    (emit (EImageFetch image_url save_path) ;;
     if image_ok w image_url then (disk_op (add_image_file save_path) ;; ret true)
     else raise (Exception "download failed"))
    (fun _ => ret false).

Definition append_path (save_path : string) (b : Build) : Build :=
  with_images (local_image_paths b ++ [save_path]) (images_count b) (build_directory b) b.

(* lines 386-394: the image at [img_url] is wanted at [save_path] *)
Definition acquire (img_url save_path : string) (build_info : Build) : M Build :=
  present <- gets (fun s => mem save_path (image_files (disk s))) ;;
  if present then ret (append_path save_path build_info)
  else
    ok <- download_image img_url save_path ;;
    if ok then ret (append_path save_path build_info) else ret build_info.

Definition image_path (build_dir : string) (img_idx : nat) : string :=
  path_join build_dir ("image_" ++ zero_padded 3 img_idx ++ ".jpg")%string.

(* lines 380-399 *)
Fixpoint download_each (build_dir : string) (img_idx : nat) (image_urls : list string)
    (build_info : Build) : M Build :=
  match image_urls with
  | [] => ret build_info
  | img_url :: rest =>
      build_info <-
        try_except AnyException
          (acquire img_url (image_path build_dir img_idx) build_info)
          (fun _ => ret build_info) ;;
      download_each build_dir (S img_idx) rest build_info
  end.

(* lines 356-413 *)
Definition download_all_images_for_build (build_info : Build) (build_idx : nat) : M Build :=
  let build_info := with_images [] 0 (build_directory build_info) build_info in
  if nonempty (build_url build_info) then
    try_except AnyException
      (let build_dir := path_join (images_dir self)
                          (build_id_of build_idx (title build_info)) in
       build_info <- download_each build_dir 0 (image_urls build_info) build_info ;;
       ret (with_images (local_image_paths build_info)
              (length (local_image_paths build_info)) (Some build_dir) build_info))
      (fun _ => ret build_info)
  else ret build_info.

Definition update_results (f : Results -> Results) : M unit :=
  modify (fun s => set_results (f (results s)) s).

(* lines 502-531: one iteration of the loop over builds *)
Definition scrape_build (cat_idx total build_idx : nat) (build : Build) : M unit :=
  try_except AnyException
    (global_build_idx <- gets (fun s => total_builds (results s)) ;;
     update_results count_attempt ;;
     emit (LogBuild build_idx) ;;
     build <- download_all_images_for_build build global_build_idx ;;
     (if Nat.ltb 0 (images_count build)
      then update_results (count_success (images_count build))
      else update_results count_failure) ;;
     modify (fun s => set_metadata (metadata s ++ [build]) s) ;;
     _save_metadata ;;
     _save_checkpoint cat_idx build_idx total)
    (fun _ =>
       update_results count_failure ;;
       _save_checkpoint cat_idx build_idx total).

Fixpoint scrape_builds (cat_idx total build_idx : nat) (builds : list Build) : M unit :=
  match builds with
  | [] => ret tt
  | build :: rest =>
      scrape_build cat_idx total build_idx build ;;
      scrape_builds cat_idx total (S build_idx) rest
  end.

(* lines 493-536: one iteration of the loop over categories *)
Definition scrape_category (max_builds_per_category total cat_idx : nat)
    (category_url : string) : M unit :=
  emit (LogCategory cat_idx) ;;
  try_except AnyException
    (builds <- extract_builds_from_category category_url ;;
     scrape_builds cat_idx total 0 (firstn max_builds_per_category builds))
    (fun _ => _save_checkpoint cat_idx 0 total).

(* for cat_idx in range(cat_idx, cat_idx + len(category_urls)) *)
Fixpoint scrape_categories (max_builds_per_category total cat_idx : nat)
    (category_urls : list string) : M unit :=
  match category_urls with
  | [] => ret tt
  | category_url :: rest =>
      scrape_category max_builds_per_category total cat_idx category_url ;;
      scrape_categories max_builds_per_category total (S cat_idx) rest
  end.

Definition resuming (resume_arg : option bool) : bool :=
  let resume := match resume_arg with Some b => b | None => resume self end in
  match checkpoint_data self with Some _ => resume | None => false end.

(* lines 476-480 *)
Definition start_category_idx (resume_arg : option bool) : nat :=
  match checkpoint_data self with
  | Some checkpoint => if resuming resume_arg then current_category_idx checkpoint else 0
  | None => 0
  end.

(* lines 445-548 *)
Definition scrape (max_categories max_builds_per_category : nat)
    (resume_arg : option bool) : M Results :=
  t <- clock ;;
  modify (set_results {| total_builds := 0; successful_builds := 0; failed_builds := 0;
                         total_images_downloaded := 0; started_at := now w t |}) ;;
  (if resuming resume_arg then
     try_except AnyException
       (existing_metadata <- _load_metadata ;;
        modify (set_metadata existing_metadata) ;;
        update_results (with_total (length existing_metadata)))
       (fun _ => ret tt)
   else ret tt) ;;
  category_urls <- get_category_urls max_categories ;;
  if is_nil category_urls then
    emit LogNoCategories ;;
    gets results
  else
    scrape_categories max_builds_per_category (length category_urls)
      (start_category_idx resume_arg)
      (skipn (start_category_idx resume_arg) category_urls) ;;
    _clear_checkpoint ;;
    emit LogCompleted ;;
    gets results.

End Methods.

(* lines 27-67: the attributes that matter, and the checkpoint read once *)
Definition Scraper_init (w : World) (base_url images_dir : string) (resume : bool)
    : M Scraper :=
  modify (set_metadata []) ;;
  checkpoint_data <- _load_checkpoint ;;
  ret {| base_url := base_url; images_dir := images_dir; resume := resume;
         checkpoint_data := checkpoint_data |}.

(** The configuration of a run: the arguments of the constructor and of
    [scrape]. *)
Record Config : Type := {
  cfg_base_url : string;
  cfg_images_dir : string;
  cfg_resume : bool;
  max_categories : nat;
  max_builds_per_category : nat
}.

(* scripts/run_scraper.py main(), with its defaults made arguments *)
Definition main (w : World) (c : Config) : M Results :=
  scraper <- Scraper_init w (cfg_base_url c) (cfg_images_dir c) (cfg_resume c) ;;
  scrape w scraper (max_categories c) (max_builds_per_category c) None.

(** A process starts with an empty trace on the disk it finds. *)
Definition boot (d : Disk) : St :=
  {| disk := d; metadata := [];
     results := {| total_builds := 0; successful_builds := 0; failed_builds := 0;
                   total_images_downloaded := 0; started_at := "" |};
     trace := [] |}.

Definition run (w : World) (c : Config) (d : Disk) : outcome Results * St :=
  main w c (boot d).

(** ** Reading the trace *)

(** Requests to the site, as opposed to writes and progress marks. *)
Definition is_request (e : Event) : bool :=
  match e with EFetch _ | EImageFetch _ _ => true | _ => false end.

Definition cursor_of (ck : Checkpoint) : nat * nat :=
  (current_category_idx ck, current_build_idx ck).

(** The cursors written to the checkpoint file, oldest first. *)
Fixpoint cursors (tr : list Event) : list (nat * nat) :=
  match tr with
  | [] => []
  | EWriteCheckpoint ck :: r => cursor_of ck :: cursors r
  | _ :: r => cursors r
  end.

Fixpoint unlinks (tr : list Event) : nat :=
  match tr with
  | [] => 0
  | EUnlinkCheckpoint :: r => S (unlinks r)
  | _ :: r => unlinks r
  end.

Fixpoint image_fetches (tr : list Event) : nat :=
  match tr with
  | [] => 0
  | EImageFetch _ _ :: r => S (image_fetches r)
  | _ :: r => image_fetches r
  end.

(** Lexicographic order on cursors. *)
Definition lex_lt (p q : nat * nat) : Prop :=
  fst p < fst q \/ (fst p = fst q /\ snd p < snd q).

(** The discard rule of lines 247-252, on a stored record. *)
Definition kept (b : Build) : Prop := tags b <> [] /\ image_urls b <> [].

(** ** What a run starts from *)

Definition loaded_checkpoint (d : Disk) : option Checkpoint :=
  match checkpoint_file d with Holds ck => Some ck | _ => None end.

Definition loaded_metadata (d : Disk) : list Build :=
  match metadata_file d with Holds l => l | _ => [] end.

Definition scraper_of (c : Config) (d : Disk) : Scraper :=
  {| base_url := cfg_base_url c; images_dir := cfg_images_dir c; resume := cfg_resume c;
     checkpoint_data := loaded_checkpoint d |}.

(** [self.metadata] when the loop over the categories starts. *)
Definition initial_metadata (c : Config) (d : Disk) : list Build :=
  if resuming (scraper_of c d) None then loaded_metadata d else [].

(** The value of [get_category_urls] when the process survives the request. *)
Definition category_list (w : World) (self : Scraper) (max_categories : nat) : list string :=
  match pages w (base_url self) with
  | Some soup => add_categories w self (firstn max_categories (cats_links soup)) []
  | None => []
  end.

(** The links that the loop of lines 203-208 gets through: those before the
    first one on which [urljoin] raises. *)
Fixpoint joinable (w : World) (base : string) (hrefs : list string) : list string :=
  match hrefs with
  | [] => []
  | href :: rest =>
      if urljoin_raises w base href then [] else href :: joinable w base rest
  end.

(** ** The vocabulary of the statements *)

(** Two states between which only requests were made. *)
Record quiet (s s' : St) : Prop := {
  quiet_metadata : metadata s' = metadata s;
  quiet_results : results s' = results s;
  quiet_metadata_file : metadata_file (disk s') = metadata_file (disk s);
  quiet_checkpoint_file : checkpoint_file (disk s') = checkpoint_file (disk s);
  quiet_trace : exists evs, trace s' = trace s ++ evs /\ forallb is_request evs = true
}.

(** A computation is tame when it only makes requests, and dies only in a
    world that kills. *)
Definition tame (w : World) {A} (m : M A) : Prop :=
  forall s, quiet s (snd (m s)) /\ (fst (m s) = Killed -> kill_at w <> None).

(** [yields P m]: whenever [m] returns a value, the value satisfies [P]. *)
Definition yields {A} (P : A -> Prop) (m : M A) : Prop :=
  forall s a s', m s = (Done a, s') -> P a.

(** [download_all_images_for_build] only touches the three image keys. *)
Definition same_item (b b' : Build) : Prop :=
  build_url b' = build_url b /\ tags b' = tags b /\ image_urls b' = image_urls b.

(** The checkpoint that [_save_checkpoint] builds in state [s]. *)
Definition checkpoint_now (w : World) (category_idx build_idx total : nat) (s : St)
    : Checkpoint :=
  {| current_category_idx := category_idx; current_build_idx := build_idx;
     total_categories := total; timestamp := now w (length (trace s));
     total_builds_processed := length (metadata s) |}.

(** Events that an iteration over one build emits before its checkpoint. *)
Definition inner (e : Event) : bool :=
  match e with
  | EFetch _ | EImageFetch _ _ | LogBuild _ | EWriteMetadata _ => true
  | _ => false
  end.

(* lines 512-516 *)
Definition tally (b' : Build) : Results -> Results :=
  if Nat.ltb 0 (images_count b') then count_success (images_count b') else count_failure.

(** The two ways an iteration of the loop over builds can end: nothing that
    escapes from its callees reaches the handler of line 527. *)
Inductive build_step (w : World) (c n i : nat) (b : Build) (s : St)
  : outcome unit -> St -> Prop :=
| build_stored s' b' reqs ck :
    same_item b b' ->
    images_count b' = length (local_image_paths b') ->
    metadata s' = metadata s ++ [b'] ->
    results s' = tally b' (count_attempt (results s)) ->
    forallb is_request reqs = true ->
    trace s' = trace s ++ (LogBuild i :: reqs ++ [EWriteMetadata (metadata s')])
                       ++ [EWriteCheckpoint ck] ->
    cursor_of ck = (c, i) -> total_categories ck = n ->
    total_builds_processed ck = length (metadata s') ->
    (write_fails w (length (trace s ++ LogBuild i :: reqs ++ [EWriteMetadata (metadata s')]))
     = false ->
     metadata_file (disk s') = Holds (metadata s')) ->
    (write_fails w (length (trace s')) = false -> checkpoint_file (disk s') = Holds ck) ->
    build_step w c n i b s (Done tt) s'
| build_killed s' evs :
    kill_at w <> None ->
    forallb inner evs = true ->
    trace s' = trace s ++ evs ->
    (forall l, In (EWriteMetadata l) evs -> l = metadata s') ->
    (metadata s' = metadata s \/
     exists b', same_item b b' /\ metadata s' = metadata s ++ [b']) ->
    build_step w c n i b s Killed s'.

(** What holds of every state the traversal goes through, whatever stops
    it: the store is [base] followed by kept records, nothing else was ever
    written to the metadata file, the cursors written grow, and the checkpoint
    was not removed. *)
Record sound (base : list Build) (s : St) : Prop := {
  sound_metadata : exists app, metadata s = base ++ app /\ Forall kept app;
  sound_writes : forall l, In (EWriteMetadata l) (trace s) ->
                 exists app, l = base ++ app /\ Forall kept app;
  sound_sorted : StronglySorted lex_lt (cursors (trace s));
  sound_unlinks : unlinks (trace s) = 0
}.

(** Every cursor written so far lies before position [(c, i)]. *)
Definition below (c i : nat) (s : St) : Prop :=
  Forall (fun p => lex_lt p (c, i)) (cursors (trace s)).

(** The counters of [results], the records loaded at the start included. *)
Definition balanced (base : list Build) (s : St) : Prop :=
  successful_builds (results s) + failed_builds (results s) + length base
  = total_builds (results s).

(** The state in which [scrape] asks for the categories. *)
Definition ready (w : World) (c : Config) (d : Disk) : St :=
  {| disk := d; metadata := initial_metadata c d;
     results := {| total_builds := length (initial_metadata c d); successful_builds := 0;
                   failed_builds := 0; total_images_downloaded := 0;
                   started_at := now w 0 |};
     trace := [] |}.

(** How the trace of a run ends: the traversal [body], then at most one
    unlink of the checkpoint, then at most one completion mark. *)
Record closing (tr body clear done : list Event) : Prop := {
  closing_trace : tr = body ++ clear ++ done;
  closing_body : unlinks body = 0;
  closing_clear : clear = [] \/ clear = [EUnlinkCheckpoint];
  closing_done : done = [] \/ done = [LogCompleted]
}.

(** How a run ends: it never raises, it dies only in a world that kills, and
    when it returns after finding categories it has gone through all of
    them. *)
Definition ending (w : World) (c : Config) (d : Disk) (o : outcome Results) (s' : St)
  : Prop :=
  match o with
  | Done r =>
      r = results s' /\
      successful_builds r + failed_builds r + length (initial_metadata c d)
      = total_builds r /\
      (category_list w (scraper_of c d) (max_categories c) <> [] ->
       (exists body, trace s' = body ++ [LogCompleted] /\
          forall k, start_category_idx (scraper_of c d) None <= k
                    < length (category_list w (scraper_of c d) (max_categories c)) ->
                    In (LogCategory k) body) /\
       ((forall t, write_fails w t = false) -> checkpoint_file (disk s') = Missing))
  | Raised _ => False
  | Killed => kill_at w <> None
  end.

(** Everything the claims need about the end of a run. *)
Record run_facts (w : World) (c : Config) (d : Disk) (o : outcome Results) (s' : St)
  : Prop := {
  run_metadata : exists app, metadata s' = initial_metadata c d ++ app /\ Forall kept app;
  run_writes : forall l, In (EWriteMetadata l) (trace s') ->
               exists app, l = initial_metadata c d ++ app /\ Forall kept app;
  run_sorted : StronglySorted lex_lt (cursors (trace s'));
  run_closing : exists body clear done,
      closing (trace s') body clear done /\
      (clear ++ done <> [] ->
       forall k, start_category_idx (scraper_of c d) None <= k
                 < length (category_list w (scraper_of c d) (max_categories c)) ->
                 In (LogCategory k) body);
  run_outcome : ending w c d o s'
}.

(** A file that [open] or [json.load] cannot make sense of. *)
Inductive unusable {A} : file A -> Prop :=
| unusable_missing : unusable Missing
| unusable_unreadable : unusable Unreadable
| unusable_malformed : unusable Malformed.

(** ** A small site *)

Module Fixture.

Definition page (links : list string) (boxes : list (option (string * string)))
    (pics : option (list string)) (tags_text : option string) : Html :=
  {| cats_links := links; product_boxes := boxes; main_pics := pics; tags_td := tags_text |}.

(** Two categories; the first lists two builds, the second none.  The tags
    of the second build are given by [tags2]. *)
Definition site (tags2 : string) (url : string) : option Html :=
  if String.eqb url "http://g" then Some (page ["/A"; "/B"] [] None None)
  else if String.eqb url "http://g/A"
       then Some (page [] [Some ("one", "/i1"); Some ("two", "/i2")] None None)
  else if String.eqb url "http://g/B" then Some (page [] [] None None)
  else if String.eqb url "http://g/i1" then Some (page [] [] (Some ["u1"]) (Some "t1"))
  else if String.eqb url "http://g/i2" then Some (page [] [] (Some ["u2"]) (Some tags2))
  else None.

(** One category without builds. *)
Definition bare_site (url : string) : option Html :=
  if String.eqb url "http://g" then Some (page ["/B"] [] None None)
  else if String.eqb url "http://g/B" then Some (page [] [] None None)
  else None.

Definition world (pages : string -> option Html) (images : bool) (kill : option nat)
    : World :=
  {| pages := pages; urljoin := fun base href => (base ++ href)%string;
     urljoin_raises := fun _ _ => false;
     image_ok := fun _ => images; now := fun _ => "2024-01-01T00:00:00";
     write_fails := fun _ => false; write_tears := fun _ => false; kill_at := kill |}.

(** The same world on a disk that refuses the actions made at the times
    [fails], after truncating the file at the times [tears]. *)
Definition on_disk (fails tears : nat -> bool) (w : World) : World :=
  {| pages := pages w; urljoin := urljoin w; urljoin_raises := urljoin_raises w;
     image_ok := image_ok w; now := now w;
     write_fails := fails; write_tears := tears; kill_at := kill_at w |}.

(** The same world with a [urljoin] that raises on the link [bad]. *)
Definition choking_on (bad : string) (w : World) : World :=
  {| pages := pages w; urljoin := urljoin w;
     urljoin_raises := fun _ href => String.eqb href bad;
     image_ok := image_ok w; now := now w;
     write_fails := write_fails w; write_tears := write_tears w; kill_at := kill_at w |}.

(** The same site with the page at [url] out of reach. *)
Definition without (url : string) (pages : string -> option Html) (u : string)
    : option Html :=
  if String.eqb u url then None else pages u.

(** A home page with three category links, none of which leads anywhere. *)
Definition three_links (url : string) : option Html :=
  if String.eqb url "http://g" then Some (page ["/A"; "/bad"; "/B"] [] None None)
  else None.

Definition config : Config :=
  {| cfg_base_url := "http://g"; cfg_images_dir := "data/raw/images"; cfg_resume := true;
     max_categories := 100; max_builds_per_category := 100 |}.

Definition fresh : Disk :=
  {| metadata_file := Missing; checkpoint_file := Missing; image_files := [] |}.

Definition urls_of (s : St) : list string := map build_url (metadata s).

End Fixture.

(** The disk left by a process killed after its first build. *)
Definition disk_of_a_stopped_run : Disk :=
  disk (snd (run (Fixture.world (Fixture.site "t2") true (Some 9))
               Fixture.config Fixture.fresh)).

(** ** Statistics *)

(** The dictionary returned by [get_statistics].  A key that the early
    return of line 153 leaves out is [None]; [average_images_per_build] is a
    rounded float and is left out. *)
Module Stats.
Record t : Type := {
  total_builds : nat;
  total_images : nat;
  unique_tags : option nat;
  tags : list (string * nat);
  images_dir : option string;
  metadata_file : option string
}.
End Stats.

(* all_tags[tag] = all_tags.get(tag, 0) + 1, on a dict kept in insertion order *)
Fixpoint bump (tag : string) (all_tags : list (string * nat)) : list (string * nat) :=
  match all_tags with
  | [] => [(tag, 1)]
  | (key, n) :: rest =>
      if String.eqb key tag then (key, S n) :: rest else (key, n) :: bump tag rest
  end.

(* lines 158-161: one iteration of the loop over self.metadata *)
Definition count_build (acc : list (string * nat) * nat) (build : Build)
    : list (string * nat) * nat :=
  (fold_left (fun all_tags tag => bump tag all_tags) (tags build) (fst acc),
   snd acc + images_count build).

(* lines 145-171; [metadata_file] is str(self.metadata_file) *)
Definition get_statistics (self : Scraper) (metadata_file : string) : M Stats.t :=
  metadata <- gets metadata ;;
  if is_nil metadata then
    ret {| Stats.total_builds := 0; Stats.total_images := 0; Stats.unique_tags := None;
           Stats.tags := []; Stats.images_dir := None; Stats.metadata_file := None |}
  else
    let (all_tags, total_images) := fold_left count_build metadata ([], 0) in
    ret {| Stats.total_builds := length metadata; Stats.total_images := total_images;
           Stats.unique_tags := Some (length all_tags); Stats.tags := all_tags;
           Stats.images_dir := Some (images_dir self);
           Stats.metadata_file := Some metadata_file |}.

(** ** More vocabulary *)

(* all_tags.get(tag, 0) *)
Fixpoint tag_count (tag : string) (all_tags : list (string * nat)) : nat :=
  match all_tags with
  | [] => 0
  | (key, n) :: rest => if String.eqb key tag then n else tag_count tag rest
  end.

(** How many times [tag] occurs in a list of tags. *)
Fixpoint occurrences (tag : string) (l : list string) : nat :=
  match l with
  | [] => 0
  | t :: r => (if String.eqb t tag then 1 else 0) + occurrences tag r
  end.

Definition all_tags_of (l : list Build) : list string := flat_map tags l.

Definition sum_counts (all_tags : list (string * nat)) : nat :=
  fold_right (fun kv n => snd kv + n) 0 all_tags.

Definition sum_images (l : list Build) : nat :=
  fold_right (fun b n => images_count b + n) 0 l.

(** The records that have at least one local image. *)
Definition with_images_of (l : list Build) : list Build :=
  filter (fun b => Nat.ltb 0 (images_count b)) l.

(** What [k] attempts at builds did to the store and to the counters
    between [s] and [s']. *)
Record progress (k : nat) (s s' : St) : Prop := {
  progress_stored : exists stored,
      metadata s' = metadata s ++ stored /\
      length stored <= k /\
      total_images_downloaded (results s')
      = total_images_downloaded (results s) + sum_images stored /\
      successful_builds (results s')
      = successful_builds (results s) + length (with_images_of stored);
  progress_total : total_builds (results s') = total_builds (results s) + k;
  progress_outcomes :
    successful_builds (results s') + failed_builds (results s')
    = successful_builds (results s) + failed_builds (results s) + k;
  progress_started : started_at (results s') = started_at (results s)
}.

(** The categories whose processing was started, oldest first. *)
Fixpoint category_marks (tr : list Event) : list nat :=
  match tr with
  | [] => []
  | LogCategory k :: r => k :: category_marks r
  | _ :: r => category_marks r
  end.

(** The pages requested, oldest first. *)
Fixpoint fetches (tr : list Event) : list string :=
  match tr with
  | [] => []
  | EFetch url :: r => url :: fetches r
  | _ :: r => fetches r
  end.

(** No image file disappears between two disks. *)
Definition grows (d d' : Disk) : Prop :=
  forall p, mem p (image_files d) = true -> mem p (image_files d') = true.

Fixpoint string_forallb (p : ascii -> bool) (s : string) : bool :=
  match s with
  | EmptyString => true
  | String c r => p c && string_forallb p r
  end.

(* the characters kept by line 375 *)
Definition safe_char (c : ascii) : bool :=
  isalnum c || Ascii.eqb c "_" || Ascii.eqb c "-".

Definition is_ascii (c : ascii) : bool := Nat.ltb (nat_of_ascii c) 128.

Definition first_char (s : string) : option ascii :=
  match s with EmptyString => None | String c _ => Some c end.

Fixpoint last_char (s : string) : option ascii :=
  match s with
  | EmptyString => None
  | String c EmptyString => Some c
  | String _ r => last_char r
  end.

(** A character that is there and is not white space. *)
Definition solid (c : option ascii) : Prop :=
  exists a, c = Some a /\ isspace a = false.

(** What [_extract_build_info] puts in a dictionary for a box of the page
    of [url]. *)
Definition listed_in (url : string) (b : Build) : Prop :=
  nonempty (title b) = true /\ nonempty (build_url b) = true /\
  category_url b = url /\ local_image_paths b = [] /\ images_count b = 0 /\
  build_directory b = None.

(** A disk on which a checkpoint at category [k] is waiting. *)
Definition disk_with_cursor (k : nat) : Disk :=
  {| metadata_file := Missing;
     checkpoint_file :=
       Holds {| current_category_idx := k; current_build_idx := 0; total_categories := 9;
                timestamp := "2024-01-01T00:00:00"; total_builds_processed := 0 |};
     image_files := [] |}.

(** Two states that differ at most in what the metadata file holds. *)
Record alike (s1 s2 : St) : Prop := {
  alike_metadata : metadata s1 = metadata s2;
  alike_results : results s1 = results s2;
  alike_trace : trace s1 = trace s2;
  alike_checkpoint_file : checkpoint_file (disk s1) = checkpoint_file (disk s2);
  alike_image_files : image_files (disk s1) = image_files (disk s2)
}.

(** A computation that does not depend on what the metadata file holds. *)
Definition respects {A} (m : M A) : Prop :=
  forall s1 s2, alike s1 s2 ->
    fst (m s1) = fst (m s2) /\ alike (snd (m s1)) (snd (m s2)).

(** ** Reasoning about computations *)

Arguments _save_metadata : simpl never.
Arguments _save_checkpoint : simpl never.
Arguments _clear_checkpoint : simpl never.
Arguments download_all_images_for_build : simpl never.
Arguments extract_builds_from_category : simpl never.
Arguments get_category_urls : simpl never.

(** The string helpers on sample inputs. *)

Example parse_tags_splits_and_strips :
  parse_tags " castle, medieval ,,  tower " = ["castle"; "medieval"; "tower"].
Proof. reflexivity. Qed.

Example parse_tags_of_nothing : parse_tags "" = [] /\ parse_tags " , " = [].
Proof. split; reflexivity. Qed.

Example build_id_of_long_title :
  build_id_of 12 "Some nice-house with a very long title indeed"
  = "build_00012_Somenice-housewithaverylo".
Proof. reflexivity. Qed.

Example image_path_is_padded :
  image_path "data/raw/images/build_00000_one" 7
  = "data/raw/images/build_00000_one/image_007.jpg".
Proof. reflexivity. Qed.

Lemma app_nil_end_eq {A} (l : list A) : l = l ++ [].
Proof. now rewrite app_nil_r. Qed.

Lemma cursors_app tr1 tr2 : cursors (tr1 ++ tr2) = cursors tr1 ++ cursors tr2.
Proof.
  induction tr1 as [|e tr1 IH]; simpl; [reflexivity|].
  destruct e; simpl; rewrite ?IH; reflexivity.
Qed.

Lemma unlinks_app tr1 tr2 : unlinks (tr1 ++ tr2) = unlinks tr1 + unlinks tr2.
Proof.
  induction tr1 as [|e tr1 IH]; simpl; [reflexivity|].
  destruct e; simpl; rewrite ?IH; reflexivity.
Qed.

Lemma image_fetches_app tr1 tr2 :
  image_fetches (tr1 ++ tr2) = image_fetches tr1 + image_fetches tr2.
Proof.
  induction tr1 as [|e tr1 IH]; simpl; [reflexivity|].
  destruct e; simpl; rewrite ?IH; reflexivity.
Qed.

Lemma requests_cursors evs : forallb is_request evs = true -> cursors evs = [].
Proof.
  induction evs as [|e evs IH]; simpl; [reflexivity|].
  destruct e; simpl; intros H; try discriminate; auto.
Qed.

Lemma requests_unlinks evs : forallb is_request evs = true -> unlinks evs = 0.
Proof.
  induction evs as [|e evs IH]; simpl; [reflexivity|].
  destruct e; simpl; intros H; try discriminate; auto.
Qed.

Lemma requests_In evs e : forallb is_request evs = true -> In e evs -> is_request e = true.
Proof.
  intros H Hin. rewrite forallb_forall in H. auto.
Qed.

Lemma quiet_refl s : quiet s s.
Proof.
  constructor; try reflexivity. exists []. split; [apply app_nil_end_eq | reflexivity].
Qed.

Lemma quiet_trans s1 s2 s3 : quiet s1 s2 -> quiet s2 s3 -> quiet s1 s3.
Proof.
  intros [M1 R1 F1 C1 [e1 [T1 Q1]]] [M2 R2 F2 C2 [e2 [T2 Q2]]].
  constructor; try congruence.
  exists (e1 ++ e2). split.
  - rewrite T2, T1, app_assoc. reflexivity.
  - rewrite forallb_app, Q1, Q2. reflexivity.
Qed.

Section Tame.

Variable w : World.

Lemma dies_at_kill t : dies_at w t = true -> kill_at w <> None.
Proof. unfold dies_at. destruct (kill_at w); [discriminate | discriminate]. Qed.

Lemma never_dies t : kill_at w = None -> dies_at w t = false.
Proof. unfold dies_at. intros ->. reflexivity. Qed.

Lemma tame_ret {A} (a : A) : tame w (ret a).
Proof. intros s. split; [apply quiet_refl | discriminate]. Qed.

Lemma tame_raise {A} e : tame w (@raise A e).
Proof. intros s. split; [apply quiet_refl | discriminate]. Qed.

Lemma tame_gets {A} (f : St -> A) : tame w (gets f).
Proof. intros s. split; [apply quiet_refl | discriminate]. Qed.

Lemma tame_bind {A B} (m : M A) (f : A -> M B) :
  tame w m -> (forall a, tame w (f a)) -> tame w (bind m f).
Proof.
  intros Hm Hf s. unfold bind.
  destruct (Hm s) as [Q K]. destruct (m s) as [[a|e|] s1]; simpl in *.
  - destruct (Hf a s1) as [Q' K']. split; [eapply quiet_trans; eauto | exact K'].
  - split; [exact Q | discriminate].
  - split; [exact Q | intros _; apply K; reflexivity].
Qed.

Lemma tame_try {A} cls (body : M A) handler :
  tame w body -> (forall e, tame w (handler e)) -> tame w (try_except cls body handler).
Proof.
  intros Hm Hh s. unfold try_except.
  destruct (Hm s) as [Q K].
  destruct (body s) as [[a|e|] s1]; simpl in *.
  - split; [exact Q | discriminate].
  - destruct (cls e).
    + destruct (Hh e s1) as [Q' K']. split; [eapply quiet_trans; eauto | exact K'].
    + split; [exact Q | discriminate].
  - split; [exact Q | exact K].
Qed.

Lemma tame_emit e : is_request e = true -> tame w (emit w e).
Proof.
  intros He s. unfold emit.
  destruct (dies_at w (length (trace s))) eqn:D; simpl.
  - split; [apply quiet_refl | intros _; eapply dies_at_kill; eauto].
  - split; [|discriminate].
    constructor; try reflexivity. exists [e]. simpl. rewrite He. auto.
Qed.

Lemma tame_save_image p : tame w (disk_op w (add_image_file p)).
Proof.
  intros s. unfold disk_op.
  destruct (write_fails w (length (trace s))); simpl.
  - split; [apply quiet_refl | discriminate].
  - split; [|discriminate].
    constructor; try reflexivity. exists []. split; [apply app_nil_end_eq | reflexivity].
Qed.

End Tame.

Lemma yields_ret {A} (P : A -> Prop) a : P a -> yields P (ret a).
Proof. intros H s a' s' E. inversion E. subst. exact H. Qed.

Lemma yields_raise {A} (P : A -> Prop) e : yields P (raise e).
Proof. intros s a s' E. discriminate. Qed.

Lemma yields_bind {A B} (Q : A -> Prop) (P : B -> Prop) (m : M A) (f : A -> M B) :
  yields Q m -> (forall a, Q a -> yields P (f a)) -> yields P (bind m f).
Proof.
  intros Hm Hf s b s' E. unfold bind in E.
  destruct (m s) as [[a|e|] s1] eqn:Em; try discriminate.
  eapply Hf; eauto.
Qed.

Lemma yields_try {A} (P : A -> Prop) cls (body : M A) handler :
  yields P body -> (forall e, yields P (handler e)) -> yields P (try_except cls body handler).
Proof.
  intros Hm Hh s a s' E. unfold try_except in E.
  destruct (body s) as [[a1|e|] s1] eqn:Em; try discriminate.
  - inversion E; subst. eapply Hm; eauto.
  - destruct (cls e); [eapply Hh; eauto | discriminate].
Qed.

Lemma yields_any {A} (m : M A) : yields (fun _ => True) m.
Proof. intros s a s' _. exact I. Qed.

Section Collaborators.

Variable w : World.
Variable self : Scraper.

Ltac tame_step :=
  lazymatch goal with
  | |- tame _ (ret _) => apply tame_ret
  | |- tame _ (raise _) => apply tame_raise
  | |- tame _ (gets _) => apply tame_gets
  | |- tame _ (emit _ _) => apply tame_emit; reflexivity
  | |- tame _ (disk_op _ (add_image_file _)) => apply tame_save_image
  | |- tame _ (bind _ _) => apply tame_bind; [|intros ?]
  | |- tame _ (try_except _ _ _) => apply tame_try; [|intros ?]
  | |- tame _ (if ?x then _ else _) => destruct x
  | |- tame _ (match ?x with _ => _ end) => destruct x
  end.

Ltac tame_with lem := repeat first [ apply lem | tame_step ].

Lemma tame_fetch_page url : tame w (fetch_page w url).
Proof. unfold fetch_page. repeat tame_step. Qed.

Lemma tame_get_category_urls n : tame w (get_category_urls w self n).
Proof. unfold get_category_urls. tame_with tame_fetch_page. Qed.

Lemma tame__extract_build_info index item url :
  tame w (_extract_build_info w self index item url).
Proof. unfold _extract_build_info, clock. repeat tame_step. Qed.

Lemma tame__extract_images_and_tags url : tame w (_extract_images_and_tags w url).
Proof. unfold _extract_images_and_tags. tame_with tame_fetch_page. Qed.

Lemma tame_extract_build index item url builds :
  tame w (extract_build w self index item url builds).
Proof.
  unfold extract_build.
  repeat first [ apply tame__extract_build_info | apply tame__extract_images_and_tags
               | tame_step ].
Qed.

Lemma tame_extract_each items : forall index url builds,
  tame w (extract_each w self index items url builds).
Proof.
  induction items as [|item items IH]; intros; simpl.
  - tame_step.
  - tame_step; [apply tame_extract_build | apply IH].
Qed.

Lemma tame_extract_builds_from_category url :
  tame w (extract_builds_from_category w self url).
Proof.
  unfold extract_builds_from_category.
  repeat first [ apply tame_fetch_page | apply tame_extract_each | tame_step ].
Qed.

Lemma tame_download_image url p : tame w (download_image w url p).
Proof. unfold download_image. repeat tame_step. Qed.

Lemma tame_acquire url p b : tame w (acquire w url p b).
Proof. unfold acquire. tame_with tame_download_image. Qed.

Lemma tame_download_each urls : forall dir idx b,
  tame w (download_each w dir idx urls b).
Proof.
  induction urls as [|url urls IH]; intros; simpl.
  - tame_step.
  - tame_step; [|apply IH]. tame_with tame_acquire.
Qed.

Lemma tame_download_all_images_for_build b idx :
  tame w (download_all_images_for_build w self b idx).
Proof. unfold download_all_images_for_build. tame_with tame_download_each. Qed.

(** What [extract_builds_from_category] returns passed the discard rule. *)

Lemma _extract_build_info_has_url index item url :
  yields (fun o => forall b, o = Some b -> nonempty (build_url b) = true)
    (_extract_build_info w self index item url).
Proof.
  unfold _extract_build_info. apply yields_try.
  - destruct item as [[text href]|]; [|apply yields_raise].
    destruct (urljoin_raises w (base_url self) href); [apply yields_raise|].
    destruct (nonempty (urljoin w (base_url self) href)) eqn:E.
    + eapply yields_bind; [apply yields_any|]. intros t _.
      apply yields_ret. intros b Hb. inversion Hb; subst. exact E.
    + apply yields_ret. discriminate.
  - intros e. apply yields_ret. discriminate.
Qed.

Lemma is_nil_false {A} (l : list A) : is_nil l = false -> l <> [].
Proof. destruct l; [discriminate | discriminate]. Qed.

Lemma extract_build_kept index item url builds :
  Forall kept builds -> yields (Forall kept) (extract_build w self index item url builds).
Proof.
  intros H. unfold extract_build. apply yields_try; [|intros; now apply yields_ret].
  eapply yields_bind; [apply _extract_build_info_has_url|].
  intros [b|] Hb; [|now apply yields_ret].
  rewrite (Hb b eq_refl).
  apply yields_try; [|intros; now apply yields_ret].
  eapply yields_bind; [apply yields_any|]. intros [[imgs tgs]|] _; [|now apply yields_ret].
  destruct (is_nil imgs || is_nil tgs) eqn:E; [now apply yields_ret|].
  apply orb_false_elim in E. destruct E as [E1 E2].
  apply yields_ret. apply Forall_app. split; [exact H|].
  constructor; [|constructor].
  split; simpl; now apply is_nil_false.
Qed.

Lemma extract_each_kept items : forall index url builds,
  Forall kept builds -> yields (Forall kept) (extract_each w self index items url builds).
Proof.
  induction items as [|item items IH]; intros index url builds H; simpl.
  - now apply yields_ret.
  - eapply yields_bind; [apply extract_build_kept; exact H|].
    intros bs Hbs. now apply IH.
Qed.

Lemma extract_builds_from_category_kept url :
  yields (Forall kept) (extract_builds_from_category w self url).
Proof.
  unfold extract_builds_from_category.
  apply yields_try; [|intros; apply yields_ret; constructor].
  eapply yields_bind; [apply yields_any|].
  intros [soup|] _; [|apply yields_ret; constructor].
  apply extract_each_kept. constructor.
Qed.

Lemma same_item_refl b : same_item b b.
Proof. repeat split. Qed.

Lemma acquire_same_item b0 url p b :
  same_item b0 b -> yields (same_item b0) (acquire w url p b).
Proof.
  intros H. unfold acquire.
  eapply yields_bind; [apply yields_any|]. intros present _.
  destruct present; [now apply yields_ret|].
  eapply yields_bind; [apply yields_any|]. intros ok _.
  destruct ok; now apply yields_ret.
Qed.

Lemma download_each_same_item b0 urls : forall dir idx b,
  same_item b0 b -> yields (same_item b0) (download_each w dir idx urls b).
Proof.
  induction urls as [|url urls IH]; intros dir idx b H; simpl.
  - now apply yields_ret.
  - eapply yields_bind; [|intros b1 H1; apply IH; exact H1].
    apply yields_try; [now apply acquire_same_item | intros; now apply yields_ret].
Qed.

Lemma download_all_images_for_build_same_item b idx :
  yields (same_item b) (download_all_images_for_build w self b idx).
Proof.
  unfold download_all_images_for_build.
  destruct (nonempty _); [|apply yields_ret; now repeat split].
  apply yields_try; [|intros; apply yields_ret; now repeat split].
  eapply yields_bind; [apply download_each_same_item; now repeat split|].
  intros b1 H1. apply yields_ret. exact H1.
Qed.

Lemma download_all_images_for_build_count b idx :
  yields (fun b' => images_count b' = length (local_image_paths b'))
    (download_all_images_for_build w self b idx).
Proof.
  unfold download_all_images_for_build.
  destruct (nonempty _); [|now apply yields_ret].
  apply yields_try; [|intros; now apply yields_ret].
  eapply yields_bind; [apply yields_any|]. intros b1 _. now apply yields_ret.
Qed.

End Collaborators.

(** ** The persistence primitives, run symbolically *)

Section Persistence.

Variable w : World.

Lemma _save_checkpoint_eq c i n s :
  _save_checkpoint w c i n s =
  if dies_at w (length (trace s)) then (Killed, s)
  else
    let ck := checkpoint_now w c i n s in
    let s1 := set_trace (trace s ++ [EWriteCheckpoint ck]) s in
    (Done tt,
     if write_fails w (length (trace s1)) then
       if write_tears w (length (trace s1))
       then set_disk (set_checkpoint_file Malformed (disk s1)) s1
       else s1
     else set_disk (set_checkpoint_file (Holds ck) (disk s1)) s1).
Proof.
  unfold _save_checkpoint, try_except, bind, clock, gets, emit, write_json, checkpoint_now.
  destruct (dies_at w (length (trace s))); [reflexivity|]. simpl.
  destruct (write_fails w _); [destruct (write_tears w _)|]; reflexivity.
Qed.

Lemma _save_metadata_eq s :
  _save_metadata w s =
  if dies_at w (length (trace s)) then (Killed, s)
  else
    let s1 := set_trace (trace s ++ [EWriteMetadata (metadata s)]) s in
    (Done tt,
     if write_fails w (length (trace s1)) then
       if write_tears w (length (trace s1))
       then set_disk (set_metadata_file Malformed (disk s1)) s1
       else s1
     else set_disk (set_metadata_file (Holds (metadata s)) (disk s1)) s1).
Proof.
  unfold _save_metadata, try_except, bind, gets, emit, write_json.
  destruct (dies_at w (length (trace s))); [reflexivity|]. simpl.
  destruct (write_fails w _); [destruct (write_tears w _)|]; reflexivity.
Qed.

Lemma _clear_checkpoint_eq s :
  _clear_checkpoint w s =
  if exists_ (checkpoint_file (disk s)) then
    if dies_at w (length (trace s)) then (Killed, s)
    else
      let s1 := set_trace (trace s ++ [EUnlinkCheckpoint]) s in
      (Done tt,
       if write_fails w (length (trace s1)) then s1
       else set_disk (set_checkpoint_file Missing (disk s1)) s1)
  else (Done tt, s).
Proof.
  unfold _clear_checkpoint, try_except, bind, gets, emit, disk_op.
  destruct (exists_ _); [|reflexivity].
  destruct (dies_at w (length (trace s))); [reflexivity|]. simpl.
  destruct (write_fails w _); reflexivity.
Qed.

Lemma _load_checkpoint_eq s :
  _load_checkpoint s = (Done (loaded_checkpoint (disk s)), s).
Proof.
  unfold _load_checkpoint, loaded_checkpoint, try_except, bind, gets.
  destruct (checkpoint_file (disk s)); reflexivity.
Qed.

Lemma _load_metadata_eq s :
  _load_metadata s = (Done (loaded_metadata (disk s)), s).
Proof.
  unfold _load_metadata, loaded_metadata, try_except, bind, gets.
  destruct (metadata_file (disk s)); reflexivity.
Qed.

Lemma fetch_page_eq url s :
  fetch_page w url s =
  if dies_at w (length (trace s)) then (Killed, s)
  else (Done (pages w url), set_trace (trace s ++ [EFetch url]) s).
Proof.
  unfold fetch_page, try_except, bind, emit.
  destruct (dies_at w (length (trace s))); [reflexivity|].
  destruct (pages w url); reflexivity.
Qed.

Lemma get_category_urls_eq self n s :
  get_category_urls w self n s =
  if dies_at w (length (trace s)) then (Killed, s)
  else (Done (category_list w self n), set_trace (trace s ++ [EFetch (base_url self)]) s).
Proof.
  unfold get_category_urls, category_list, try_except, bind. rewrite fetch_page_eq.
  destruct (dies_at w (length (trace s))); [reflexivity|].
  destruct (pages w (base_url self)) as [soup|]; [|reflexivity].
  destruct (cats_links soup) as [|l ls] eqn:E; simpl.
  - destruct n; reflexivity.
  - reflexivity.
Qed.

End Persistence.

(** Case analysis on what the disk does to the next write or unlink. *)
Ltac case_write W :=
  match goal with
  | |- context [write_fails ?w ?t] => destruct (write_fails w t) eqn:W
  end;
  [ match goal with
    | |- context [write_tears ?w ?t] => destruct (write_tears w t)
    | _ => idtac
    end
  | ].

(** ** One build, one category *)

(** Nothing escapes from the two callees of the loops of [scrape]: each
    wraps its body in a handler that catches every exception. *)

Lemma download_all_images_for_build_never_raises w self b idx s e s' :
  download_all_images_for_build w self b idx s <> (Raised e, s').
Proof.
  unfold download_all_images_for_build.
  destruct (nonempty _); [|discriminate].
  unfold try_except. destruct (bind _ _ s) as [[a|e'|] s1]; discriminate.
Qed.

Lemma extract_builds_from_category_never_raises w self url s e s' :
  extract_builds_from_category w self url s <> (Raised e, s').
Proof.
  unfold extract_builds_from_category.
  unfold try_except. destruct (bind _ _ s) as [[a|e'|] s1]; discriminate.
Qed.

Lemma requests_inner evs : forallb is_request evs = true -> forallb inner evs = true.
Proof.
  induction evs as [|e evs IH]; simpl; [reflexivity|].
  destruct e; simpl; intros H; try discriminate; auto.
Qed.

Section Orchestrator.

Variable w : World.
Variable self : Scraper.
Variable base : list Build.

Lemma scrape_build_eq c n i b s :
  scrape_build w self c n i b s =
  if dies_at w (length (trace s)) then (Killed, set_results (count_attempt (results s)) s)
  else
    let s1 := set_trace (trace s ++ [LogBuild i])
                (set_results (count_attempt (results s)) s) in
    match download_all_images_for_build w self b (total_builds (results s)) s1 with
    | (Done b', s2) =>
        let s3 := set_metadata (metadata s2 ++ [b'])
                    (set_results (tally b' (results s2)) s2) in
        match _save_metadata w s3 with
        | (Done _, s4) =>
            match _save_checkpoint w c i n s4 with
            | (Raised _, s5) =>
                _save_checkpoint w c i n (set_results (count_failure (results s5)) s5)
            | r => r
            end
        | (Raised _, s4) =>
            _save_checkpoint w c i n (set_results (count_failure (results s4)) s4)
        | (Killed, s4) => (Killed, s4)
        end
    | (Raised _, s2) =>
        _save_checkpoint w c i n (set_results (count_failure (results s2)) s2)
    | (Killed, s2) => (Killed, s2)
    end.
Proof.
  unfold scrape_build, try_except, bind, update_results, modify, gets, emit, tally. simpl.
  destruct (dies_at w (length (trace s))); [reflexivity|]. simpl.
  destruct (download_all_images_for_build _ _ _ _ _) as [[b'|e|] s2]; try reflexivity.
  destruct (Nat.ltb 0 (images_count b')); simpl.
  all: destruct (_save_metadata _ _) as [[[]|e|] s4]; try reflexivity.
  all: destruct (_save_checkpoint _ _ _ _ _) as [[[]|e|] s5]; reflexivity.
Qed.

Lemma scrape_build_step c n i b s :
  build_step w c n i b s (fst (scrape_build w self c n i b s))
    (snd (scrape_build w self c n i b s)).
Proof.
  rewrite scrape_build_eq.
  destruct (dies_at w (length (trace s))) eqn:D0; simpl.
  { apply build_killed with (evs := []); simpl; auto.
    - eapply dies_at_kill; eauto.
    - now rewrite app_nil_r.
    - intros l []. }
  set (s1 := set_trace _ _).
  pose proof (tame_download_all_images_for_build w self b (total_builds (results s)) s1)
    as [Q K].
  pose proof (@download_all_images_for_build_same_item w self b
                (total_builds (results s)) s1) as SI.
  pose proof (@download_all_images_for_build_count w self b
                (total_builds (results s)) s1) as CNT.
  destruct (download_all_images_for_build w self b (total_builds (results s)) s1)
    as [[b'|e|] s2] eqn:E; simpl in *.
  - destruct Q as [QM QR _ _ [reqs [QT QQ]]].
    specialize (SI _ _ eq_refl). specialize (CNT _ _ eq_refl).
    rewrite _save_metadata_eq. simpl.
    destruct (dies_at w (length (trace s2))) eqn:D1; simpl.
    { apply build_killed with (evs := LogBuild i :: reqs); simpl.
      - eapply dies_at_kill; eauto.
      - now apply requests_inner.
      - rewrite QT. subst s1. simpl. now rewrite <- app_assoc.
      - intros l [H|H]; [discriminate|].
        apply (requests_In _ _ QQ) in H. discriminate.
      - right. exists b'. split; [exact SI|]. now rewrite QM. }
    case_write W1;
      rewrite _save_checkpoint_eq; simpl;
      match goal with |- context [dies_at w ?t] => destruct (dies_at w t) eqn:D2 end; simpl.
    all: try (apply build_killed
                with (evs := LogBuild i :: reqs ++ [EWriteMetadata (metadata s2 ++ [b'])]);
              simpl;
              [ eapply dies_at_kill; eauto
              | rewrite forallb_app, (requests_inner _ QQ); reflexivity
              | rewrite QT; subst s1; simpl; now rewrite <- !app_assoc
              | intros l [H|H]; [discriminate|];
                apply in_app_or in H; destruct H as [H|[H|[]]];
                [ apply (requests_In _ _ QQ) in H; discriminate | now inversion H ]
              | right; exists b'; split; [exact SI | now rewrite QM] ]).
    all: case_write W2; simpl.
    all: match goal with
         | |- context [EWriteCheckpoint ?k] =>
             apply build_stored with (b' := b') (reqs := reqs) (ck := k)
         end; simpl; auto;
      first [ reflexivity
            | now rewrite QM
            | rewrite QR; subst s1; reflexivity
            | rewrite QT, QM; subst s1; simpl; repeat rewrite <- app_assoc; reflexivity
            | intros H; congruence
            | intros H; rewrite QT in W1; subst s1; simpl in W1;
              repeat rewrite <- app_assoc in W1; simpl in W1; rewrite QM in W1;
              congruence ].
  - now apply download_all_images_for_build_never_raises in E.
  - destruct Q as [QM QR _ _ [reqs [QT QQ]]].
    apply build_killed with (evs := LogBuild i :: reqs); simpl.
    + auto.
    + now apply requests_inner.
    + rewrite QT. subst s1. simpl. now rewrite <- app_assoc.
    + intros l [H|H]; [discriminate|].
      apply (requests_In _ _ QQ) in H. discriminate.
    + left. rewrite QM. reflexivity.
Qed.

(** ** Invariants of the traversal *)

Lemma inner_cursors evs : forallb inner evs = true -> cursors evs = [].
Proof.
  induction evs as [|e evs IH]; simpl; [reflexivity|].
  destruct e; simpl; intros H; try discriminate; auto.
Qed.

Lemma inner_unlinks evs : forallb inner evs = true -> unlinks evs = 0.
Proof.
  induction evs as [|e evs IH]; simpl; [reflexivity|].
  destruct e; simpl; intros H; try discriminate; auto.
Qed.

Lemma StronglySorted_snoc {A} (R : A -> A -> Prop) l a :
  StronglySorted R l -> Forall (fun x => R x a) l -> StronglySorted R (l ++ [a]).
Proof.
  induction 1 as [|x l Hl IH Hx]; intros Ha; simpl.
  - constructor; constructor.
  - inversion Ha; subst. constructor; [now apply IH|].
    apply Forall_app. split; [exact Hx | constructor; [assumption | constructor]].
Qed.

Lemma Forall_firstn {A} (P : A -> Prop) n : forall l, Forall P l -> Forall P (firstn n l).
Proof.
  induction n as [|n IH]; intros l H; simpl; [constructor|].
  destruct H; constructor; auto.
Qed.

Lemma lex_lt_next c i p : lex_lt p (c, i) -> lex_lt p (c, S i).
Proof. unfold lex_lt. simpl. intros [H|[H1 H2]]; [left; exact H | right; lia]. Qed.

Lemma lex_lt_self c i : lex_lt (c, i) (c, S i).
Proof. unfold lex_lt. simpl. right. lia. Qed.

Lemma lex_lt_category c i j p : lex_lt p (c, i) -> lex_lt p (S c, j).
Proof. unfold lex_lt. simpl. intros [H|[H1 H2]]; left; lia. Qed.

Lemma kept_same_item b b' : same_item b b' -> kept b -> kept b'.
Proof. intros (_ & T & U) [K1 K2]. split; congruence. Qed.

Lemma tally_balanced b' s s' :
  balanced base s -> results s' = tally b' (count_attempt (results s)) -> balanced base s'.
Proof.
  unfold balanced, tally. intros H ->.
  destruct (Nat.ltb 0 (images_count b')); simpl; lia.
Qed.

Lemma build_step_sound c n i b s o s' :
  kept b -> sound base s -> below c i s -> build_step w c n i b s o s' -> sound base s'.
Proof.
  intros Kb [[app [Hm Ha]] Hw Hs Hu] Hb St.
  assert (Hm' : forall b', same_item b b' -> metadata s' = metadata s ++ [b'] ->
                exists app', metadata s' = base ++ app' /\ Forall kept app').
  { intros b' SI E. exists (app ++ [b']). split.
    - rewrite E, Hm, app_assoc. reflexivity.
    - apply Forall_app. split; [exact Ha|].
      constructor; [eapply kept_same_item; eauto | constructor]. }
  destruct St as [s' b' reqs ck SI CNT HM HR HQ HT HC HN HP HG HF
                 | s' evs HK HI HT HW HM].
  - constructor.
    + eauto.
    + intros l. rewrite HT. intros Hin.
      apply in_app_or in Hin. destruct Hin as [Hin|Hin]; [now apply Hw|].
      apply in_app_or in Hin. destruct Hin as [Hin|[Hin|[]]]; [|discriminate].
      destruct Hin as [Hin|Hin]; [discriminate|].
      apply in_app_or in Hin. destruct Hin as [Hin|[Hin|[]]].
      * apply (requests_In _ _ HQ) in Hin. discriminate.
      * inversion Hin; subst. eauto.
    + rewrite HT, !cursors_app. simpl.
      rewrite cursors_app, (requests_cursors _ HQ). simpl.
      apply StronglySorted_snoc; [exact Hs | now rewrite HC].
    + rewrite HT, !unlinks_app. simpl. rewrite unlinks_app, (requests_unlinks _ HQ), Hu.
      reflexivity.
  - constructor.
    + destruct HM as [E|[b' [SI E]]]; [exists app; rewrite E; auto | eauto].
    + intros l. rewrite HT. intros Hin.
      apply in_app_or in Hin. destruct Hin as [Hin|Hin]; [now apply Hw|].
      apply HW in Hin. subst l.
      destruct HM as [E|[b' [SI E]]]; [exists app; rewrite E; auto | eauto].
    + rewrite HT, cursors_app, (inner_cursors _ HI), app_nil_r. exact Hs.
    + rewrite HT, unlinks_app, (inner_unlinks _ HI), Hu. reflexivity.
Qed.

Lemma build_step_done c n i b s s' :
  balanced base s -> below c i s -> build_step w c n i b s (Done tt) s' ->
  balanced base s' /\ below c (S i) s' /\
  exists evs, trace s' = trace s ++ evs /\ In (LogBuild i) evs.
Proof.
  intros Hbal Hb St.
  inversion St as [s1 b' reqs ck SI CNT HM HR HQ HT HC HN HP HG HF | ]; subst.
  split; [eapply tally_balanced; eauto|]. split.
  - unfold below. rewrite HT, !cursors_app. simpl.
    rewrite cursors_app, (requests_cursors _ HQ). simpl.
    apply Forall_app. split.
    + eapply Forall_impl; [|exact Hb]. intros p. apply lex_lt_next.
    + constructor; [rewrite HC; apply lex_lt_self | constructor].
  - eexists. split; [exact HT|]. simpl. auto.
Qed.

Lemma sound_silent s s' evs :
  metadata s' = metadata s -> trace s' = trace s ++ evs ->
  cursors evs = [] -> unlinks evs = 0 -> (forall l, ~ In (EWriteMetadata l) evs) ->
  sound base s -> sound base s'.
Proof.
  intros HM HT HC HU HW [Sm Sw Ss Su]. constructor.
  - now rewrite HM.
  - intros l. rewrite HT. intros Hin.
    apply in_app_or in Hin. destruct Hin as [Hin|Hin]; [now apply Sw | now apply HW in Hin].
  - now rewrite HT, cursors_app, HC, app_nil_r.
  - now rewrite HT, unlinks_app, HU, Su.
Qed.

Lemma quiet_sound s s' : quiet s s' -> sound base s -> sound base s'.
Proof.
  intros [QM _ _ _ [evs [QT QQ]]]. apply sound_silent with (evs := evs); auto.
  - now apply requests_cursors.
  - now apply requests_unlinks.
  - intros l Hin. apply (requests_In _ _ QQ) in Hin. discriminate.
Qed.

Lemma quiet_below c i s s' : quiet s s' -> below c i s -> below c i s'.
Proof.
  intros [_ _ _ _ [evs [QT QQ]]]. unfold below.
  now rewrite QT, cursors_app, (requests_cursors _ QQ), app_nil_r.
Qed.

Lemma quiet_balanced s s' : quiet s s' -> balanced base s -> balanced base s'.
Proof. intros [_ QR _ _ _]. unfold balanced. now rewrite QR. Qed.

Lemma scrape_builds_inv c n builds : forall i s,
  Forall kept builds -> sound base s -> below c i s -> balanced base s ->
  match scrape_builds w self c n i builds s with
  | (Done _, s') =>
      sound base s' /\ below c (i + length builds) s' /\ balanced base s' /\
      exists evs, trace s' = trace s ++ evs /\
                  forall j, i <= j < i + length builds -> In (LogBuild j) evs
  | (Raised _, _) => False
  | (Killed, s') => sound base s' /\ kill_at w <> None
  end.
Proof.
  induction builds as [|b builds IH]; intros i s Hk Hs Hb Hbal; simpl.
  - rewrite Nat.add_0_r. split; [exact Hs|]. split; [exact Hb|]. split; [exact Hbal|].
    exists []. split; [apply app_nil_end_eq | intros j Hj; lia].
  - inversion Hk as [|? ? Kb Kbs]; subst.
    unfold bind. pose proof (scrape_build_step c n i b s) as St.
    destruct (scrape_build w self c n i b s) as [[[]|e|] s1]; simpl in St.
    + pose proof (build_step_sound Kb Hs Hb St) as Hs1.
      destruct (build_step_done Hbal Hb St) as (Hbal1 & Hb1 & evs1 & HT1 & Hin1).
      specialize (IH (S i) s1 Kbs Hs1 Hb1 Hbal1).
      destruct (scrape_builds w self c n (S i) builds s1) as [[[]|e|] s2]; auto.
      destruct IH as (Hs2 & Hb2 & Hbal2 & evs2 & HT2 & Hin2).
      split; [exact Hs2|]. split; [now rewrite <- Nat.add_succ_comm|].
      split; [exact Hbal2|].
      exists (evs1 ++ evs2). split; [rewrite HT2, HT1; symmetry; apply app_assoc|].
      intros j Hj. apply in_or_app.
      destruct (Nat.eq_dec j i) as [->|Hne]; [left; exact Hin1|].
      right. apply Hin2. lia.
    + inversion St.
    + split; [eapply build_step_sound; eauto|]. now inversion St.
Qed.

Lemma sound_checkpoint c i ck s s' :
  metadata s' = metadata s -> trace s' = trace s ++ [EWriteCheckpoint ck] ->
  cursor_of ck = (c, i) -> below c i s -> sound base s -> sound base s'.
Proof.
  intros HM HT HC Hb [Sm Sw Ss Su]. constructor.
  - now rewrite HM.
  - intros l. rewrite HT. intros Hin.
    apply in_app_or in Hin. destruct Hin as [Hin|[Hin|[]]]; [now apply Sw | discriminate].
  - rewrite HT, cursors_app. simpl. apply StronglySorted_snoc; [exact Ss | now rewrite HC].
  - rewrite HT, unlinks_app. simpl. now rewrite Su.
Qed.

Lemma scrape_category_inv m n c url s :
  sound base s -> below c 0 s -> balanced base s ->
  match scrape_category w self m n c url s with
  | (Done _, s') =>
      sound base s' /\ below (S c) 0 s' /\ balanced base s' /\
      exists evs, trace s' = trace s ++ evs /\ In (LogCategory c) evs
  | (Raised _, _) => False
  | (Killed, s') => sound base s' /\ kill_at w <> None
  end.
Proof.
  intros Hs Hb Hbal. unfold scrape_category, bind, emit, try_except.
  destruct (dies_at w (length (trace s))) eqn:D0.
  { split; [exact Hs | eapply dies_at_kill; eauto]. }
  set (s1 := set_trace _ s).
  assert (Hs1 : sound base s1).
  { apply sound_silent with (s := s) (evs := [LogCategory c]); auto.
    intros l [H|[]]; discriminate. }
  assert (Hb1 : below c 0 s1).
  { unfold below, s1. simpl. rewrite cursors_app. simpl. now rewrite app_nil_r. }
  assert (Hbal1 : balanced base s1) by exact Hbal.
  destruct (tame_extract_builds_from_category w self url s1) as [Q K].
  pose proof (@extract_builds_from_category_kept w self url s1) as KP.
  destruct (extract_builds_from_category w self url s1) as [[builds|e|] s2] eqn:E;
    simpl in *.
  - specialize (KP _ _ eq_refl).
    pose proof (@scrape_builds_inv c n (firstn m builds) 0 s2
                  (Forall_firstn m KP) (quiet_sound Q Hs1) (quiet_below Q Hb1)
                  (quiet_balanced Q Hbal1)) as L.
    destruct (scrape_builds w self c n 0 (firstn m builds) s2) as [[[]|e|] s3];
      [|contradiction|exact L].
    destruct L as (Hs3 & Hb3 & Hbal3 & evs3 & HT3 & _).
    split; [exact Hs3|]. split.
    { eapply Forall_impl; [|exact Hb3]. intros p. apply lex_lt_category. }
    split; [exact Hbal3|].
    destruct Q as [_ _ _ _ [evs2 [HT2 _]]].
    exists ([LogCategory c] ++ evs2 ++ evs3). split.
    + rewrite HT3, HT2. unfold s1. simpl. now rewrite <- !app_assoc.
    + simpl. auto.
  - now apply extract_builds_from_category_never_raises in E.
  - split; [eapply quiet_sound; eauto | auto].
Qed.

Lemma scrape_categories_inv m n urls : forall c s,
  sound base s -> below c 0 s -> balanced base s ->
  match scrape_categories w self m n c urls s with
  | (Done _, s') =>
      sound base s' /\ balanced base s' /\
      exists evs, trace s' = trace s ++ evs /\
                  forall k, c <= k < c + length urls -> In (LogCategory k) evs
  | (Raised _, _) => False
  | (Killed, s') => sound base s' /\ kill_at w <> None
  end.
Proof.
  induction urls as [|url urls IH]; intros c s Hs Hb Hbal; simpl.
  - split; [exact Hs|]. split; [exact Hbal|].
    exists []. split; [apply app_nil_end_eq | intros k Hk; lia].
  - unfold bind. pose proof (scrape_category_inv m n url Hs Hb Hbal) as L.
    destruct (scrape_category w self m n c url s) as [[[]|e|] s1]; auto.
    destruct L as (Hs1 & Hb1 & Hbal1 & evs1 & HT1 & Hin1).
    specialize (IH (S c) s1 Hs1 Hb1 Hbal1).
    destruct (scrape_categories w self m n (S c) urls s1) as [[[]|e|] s2]; auto.
    destruct IH as (Hs2 & Hbal2 & evs2 & HT2 & Hin2).
    split; [exact Hs2|]. split; [exact Hbal2|].
    exists (evs1 ++ evs2). split; [rewrite HT2, HT1; symmetry; apply app_assoc|].
    intros k Hk. apply in_or_app.
    destruct (Nat.eq_dec k c) as [->|Hne]; [left; exact Hin1|].
    right. apply Hin2. lia.
Qed.

End Orchestrator.

(** ** A whole run *)

Lemma run_eq w c d :
  run w c d =
  let self := scraper_of c d in
  if dies_at w 0 then (Killed, ready w c d)
  else
    let s1 := set_trace [EFetch (cfg_base_url c)] (ready w c d) in
    let urls := category_list w self (max_categories c) in
    if is_nil urls then (emit w LogNoCategories ;; gets results) s1
    else
      (scrape_categories w self (max_builds_per_category c) (length urls)
         (start_category_idx self None) (skipn (start_category_idx self None) urls) ;;
       _clear_checkpoint w ;;
       emit w LogCompleted ;;
       gets results) s1.
Proof.
  unfold run, main, Scraper_init, scrape.
  cbv beta iota zeta delta [bind modify ret clock gets try_except update_results].
  rewrite _load_checkpoint_eq. cbv beta iota.
  change (set_metadata [] (boot d)) with (boot d).
  replace {| base_url := cfg_base_url c; images_dir := cfg_images_dir c;
             resume := cfg_resume c; checkpoint_data := loaded_checkpoint (disk (boot d)) |}
    with (scraper_of c d) by reflexivity.
  unfold ready, initial_metadata.
  destruct (resuming (scraper_of c d) None) eqn:R.
  - rewrite _load_metadata_eq. cbv beta iota.
    rewrite get_category_urls_eq. simpl.
    destruct (dies_at w 0); [reflexivity|].
    destruct (is_nil _); reflexivity.
  - rewrite get_category_urls_eq. simpl.
    destruct (dies_at w 0); [reflexivity|].
    destruct (is_nil _); reflexivity.
Qed.

Lemma closing_facts w c d o s s' clear done :
  sound (initial_metadata c d) s ->
  metadata s' = metadata s ->
  trace s' = trace s ++ clear ++ done ->
  clear = [] \/ clear = [EUnlinkCheckpoint] ->
  done = [] \/ done = [LogCompleted] ->
  (clear ++ done <> [] ->
   forall k, start_category_idx (scraper_of c d) None <= k
             < length (category_list w (scraper_of c d) (max_categories c)) ->
             In (LogCategory k) (trace s)) ->
  ending w c d o s' ->
  run_facts w c d o s'.
Proof.
  intros [Sm Sw Ss Su] HM HT Hc Hd HV HO.
  assert (Hcd : cursors (clear ++ done) = [] /\
                forall l, ~ In (EWriteMetadata l) (clear ++ done)).
  { destruct Hc as [-> | ->], Hd as [-> | ->]; simpl; split; auto;
      intros l H; repeat (destruct H as [H|H]; [discriminate|]); exact H. }
  destruct Hcd as [Hcur Hnw].
  constructor; auto.
  - now rewrite HM.
  - intros l. rewrite HT. intros Hin.
    apply in_app_or in Hin. destruct Hin as [Hin|Hin]; [now apply Sw | now apply Hnw in Hin].
  - now rewrite HT, cursors_app, Hcur, app_nil_r.
  - exists (trace s), clear, done. split; [constructor; auto | exact HV].
Qed.

Lemma quiet_end w c d o s :
  sound (initial_metadata c d) s ->
  ending w c d o s ->
  run_facts w c d o s.
Proof.
  intros Hs HO. apply closing_facts with (s := s) (clear := []) (done := []); auto.
  - now rewrite !app_nil_r.
  - intros H. now elim H.
Qed.

Lemma is_nil_true {A} (l : list A) : is_nil l = true -> l = [].
Proof. destruct l; [reflexivity | discriminate]. Qed.

Lemma exists_false {A} (f : file A) : exists_ f = false -> f = Missing.
Proof. destruct f; [reflexivity | discriminate | discriminate | discriminate]. Qed.

Lemma bind_unfold {A B} (m : M A) (f : A -> M B) s :
  bind m f s =
  match m s with
  | (Done a, s') => f a s'
  | (Raised e, s') => (Raised e, s')
  | (Killed, s') => (Killed, s')
  end.
Proof. reflexivity. Qed.

Lemma on_pair {A B} (P : A -> B -> Prop) (x : A * B) :
  (let (a, b) := x in P a b) -> P (fst x) (snd x).
Proof. destruct x. auto. Qed.

Lemma run_spec w c d : run_facts w c d (fst (run w c d)) (snd (run w c d)).
Proof.
  apply on_pair. rewrite run_eq. cbv zeta.
  set (self := scraper_of c d). set (base := initial_metadata c d).
  set (urls := category_list w self (max_categories c)).
  assert (S0 : sound base (ready w c d)).
  { constructor; simpl.
    - exists []. split; [apply app_nil_end_eq | constructor].
    - intros l [].
    - constructor.
    - reflexivity. }
  destruct (dies_at w 0) eqn:D0; simpl.
  { apply quiet_end; [exact S0 | eapply dies_at_kill; eauto]. }
  set (s1 := set_trace _ _).
  assert (S1 : sound base s1).
  { apply sound_silent with (s := ready w c d) (evs := [EFetch (cfg_base_url c)]); auto.
    intros l [H|[]]; discriminate. }
  destruct (is_nil urls) eqn:N.
  - apply is_nil_true in N. unfold bind, emit, gets.
    destruct (dies_at w (length (trace s1))) eqn:D1; simpl.
    + apply quiet_end; [exact S1 | eapply dies_at_kill; eauto].
    + apply quiet_end.
      * apply sound_silent with (s := s1) (evs := [LogNoCategories]); auto.
        intros l [H|[]]; discriminate.
      * simpl. split; [reflexivity|]. split; [reflexivity|].
        fold self urls. intros H. now elim H.
  - set (start := start_category_idx self None).
    assert (B1 : below start 0 s1) by constructor.
    assert (Bal1 : balanced base s1) by reflexivity.
    pose proof (@scrape_categories_inv w self base (max_builds_per_category c)
                  (length urls) (skipn start urls) start s1 S1 B1 Bal1) as L.
    unfold bind at 1.
    destruct (scrape_categories w self _ _ start (skipn start urls) s1) as [[[]|e|] s2];
      simpl; [|contradiction|destruct L as [L1 L2]; apply quiet_end; [exact L1 | exact L2]].
    destruct L as (S2 & Bal2 & evs & HT2 & HV).
    assert (V2 : forall k, start <= k < length urls -> In (LogCategory k) (trace s2)).
    { intros k Hk. rewrite HT2. apply in_or_app. right. apply HV.
      rewrite length_skipn. lia. }
    unfold bind at 1. rewrite _clear_checkpoint_eq.
    destruct (exists_ (checkpoint_file (disk s2))) eqn:X.
    + destruct (dies_at w (length (trace s2))) eqn:D2; simpl.
      { apply quiet_end; [exact S2 | eapply dies_at_kill; eauto]. }
      unfold bind, emit, gets.
      match goal with |- context [write_fails w ?t] => destruct (write_fails w t) eqn:W end;
        simpl;
        match goal with |- context [dies_at w ?t] => destruct (dies_at w t) eqn:D3 end;
        simpl.
      * apply closing_facts with (s := s2) (clear := [EUnlinkCheckpoint]) (done := []);
          auto. eapply dies_at_kill; eauto.
      * apply closing_facts with (s := s2) (clear := [EUnlinkCheckpoint])
                                 (done := [LogCompleted]); auto.
        -- simpl. now rewrite <- app_assoc.
        -- simpl. split; [reflexivity|]. split; [exact Bal2|]. intros _. split.
           ++ eexists. split; [reflexivity|].
              intros k Hk. apply in_or_app. left. now apply V2.
           ++ intros NF. rewrite NF in W. discriminate.
      * apply closing_facts with (s := s2) (clear := [EUnlinkCheckpoint]) (done := []);
          auto. eapply dies_at_kill; eauto.
      * apply closing_facts with (s := s2) (clear := [EUnlinkCheckpoint])
                                 (done := [LogCompleted]); auto.
        -- simpl. now rewrite <- app_assoc.
        -- simpl. split; [reflexivity|]. split; [exact Bal2|]. intros _. split.
           ++ eexists. split; [reflexivity|].
              intros k Hk. apply in_or_app. left. now apply V2.
           ++ reflexivity.
    + apply exists_false in X. unfold bind, emit, gets. simpl.
      destruct (dies_at w (length (trace s2))) eqn:D3; simpl.
      * apply quiet_end; [exact S2 | eapply dies_at_kill; eauto].
      * apply closing_facts with (s := s2) (clear := []) (done := [LogCompleted]); auto.
        simpl. split; [reflexivity|]. split; [exact Bal2|]. intros _. split.
        -- eexists. split; [reflexivity|]. exact V2.
        -- intros _. exact X.
Qed.

(** ** The claims *)

(** *** C9: loading fails soft *)

(** C9.  Loading the checkpoint and loading the existing metadata fail soft:
    when the file is missing, cannot be read or cannot be parsed,
    [_load_checkpoint] returns the empty dictionary and [_load_metadata] the
    empty list; and on every disk both return a value, never an exception,
    and leave the state as it was. *)
Theorem loads_fail_soft (s1 s2 : St)
    (Hc : unusable (checkpoint_file (disk s1)))
    (Hm : unusable (metadata_file (disk s2))) :
  _load_checkpoint s1 = (Done None, s1) /\
  _load_metadata s2 = (Done [], s2) /\
  (forall s, exists ck, _load_checkpoint s = (Done ck, s)) /\
  (forall s, exists l, _load_metadata s = (Done l, s)).
Proof.
  repeat split.
  - rewrite _load_checkpoint_eq. unfold loaded_checkpoint. now destruct Hc.
  - rewrite _load_metadata_eq. unfold loaded_metadata. now destruct Hm.
  - intros s. eexists. apply _load_checkpoint_eq.
  - intros s. eexists. apply _load_metadata_eq.
Qed.

Lemma loads_fail_soft_witness :
  _load_checkpoint (boot Fixture.fresh) = (Done None, boot Fixture.fresh) /\
  _load_metadata
    (boot {| metadata_file := Malformed; checkpoint_file := Unreadable; image_files := [] |})
  = (Done [],
     boot {| metadata_file := Malformed; checkpoint_file := Unreadable; image_files := [] |}).
Proof.
  destruct (@loads_fail_soft (boot Fixture.fresh)
              (boot {| metadata_file := Malformed; checkpoint_file := Unreadable;
                       image_files := [] |}))
    as (H1 & H2 & _).
  - simpl. constructor.
  - simpl. constructor.
  - split; [exact H1 | exact H2].
Defined.

(** *** C10: the counters of a fresh run *)

(** C10.  A fresh run (no checkpoint loaded, so that the total starts at
    zero) never raises, dies only when the process is killed, and otherwise
    returns a summary in which successful_builds + failed_builds equals
    total_builds. *)
Theorem fresh_run_counters_add_up (w : World) (c : Config) (d : Disk)
    (Hfresh : resuming (scraper_of c d) None = false) :
  match run w c d with
  | (Done r, _) => successful_builds r + failed_builds r = total_builds r
  | (Raised _, _) => False
  | (Killed, _) => kill_at w <> None
  end.
Proof.
  pose proof (run_outcome (run_spec w c d)) as E. unfold ending in E.
  destruct (run w c d) as [[r|e|] s']; simpl in E; auto.
  destruct E as (_ & E & _).
  unfold initial_metadata in E. rewrite Hfresh in E. simpl in E. lia.
Qed.

Lemma fresh_run_counters_add_up_witness :
  match run (Fixture.world (Fixture.site "t2") true None) Fixture.config Fixture.fresh with
  | (Done r, _) => successful_builds r + failed_builds r = total_builds r
  | (Raised _, _) => False
  | (Killed, _) => @None nat <> None
  end.
Proof.
  apply (@fresh_run_counters_add_up (Fixture.world (Fixture.site "t2") true None)
           Fixture.config Fixture.fresh).
  reflexivity.
Defined.

(** *** C2: what is stored *)

(** C2, as stated, fails: when no image of a build can be downloaded the
    record is stored all the same, with an empty [local_image_paths]. *)
Lemma stored_record_without_local_images :
  let s := snd (run (Fixture.world (Fixture.site "") false None)
                  Fixture.config Fixture.fresh) in
  map local_image_paths (metadata s) = [[]] /\
  map tags (metadata s) = [["t1"]] /\
  map image_urls (metadata s) = [["u1"]] /\
  metadata_file (disk s) = Holds (metadata s).
Proof. vm_compute. repeat split. Qed.

(** C2, amended.  Every record appended to [self.metadata] during a run has
    at least one tag and at least one image reference, and so has every
    record of every list written to the metadata file; a build that fails
    this test on its detail page is dropped before it reaches the store.
    Nothing is promised about [local_image_paths]. *)
Theorem stored_records_have_tags_and_image_refs (w : World) (c : Config) (d : Disk) :
  (exists appended,
      metadata (snd (run w c d)) = initial_metadata c d ++ appended /\
      Forall kept appended) /\
  (forall l, In (EWriteMetadata l) (trace (snd (run w c d))) ->
      exists appended, l = initial_metadata c d ++ appended /\ Forall kept appended) /\
  (forall self url s builds s',
      extract_builds_from_category w self url s = (Done builds, s') ->
      Forall kept builds).
Proof.
  split; [apply (run_metadata (run_spec w c d))|].
  split; [apply (run_writes (run_spec w c d))|].
  intros self url s builds s' E. eapply extract_builds_from_category_kept; eauto.
Qed.

(** *** C5: the checkpoint follows the attempts *)



(** *** C1: resuming after an interruption *)

(** C1 on the code.  The site has one category with two builds.  The first
    process is killed right after it has written the checkpoint of the first
    build; the second process resumes on the disk the first one left.  It
    reads [current_category_idx] but never [current_build_idx], starts the
    category again from its first build, and stores that build a second
    time: the final metadata holds three records where an uninterrupted run
    holds two, two of them have the same [build_url], and the image of the
    first build is fetched again.  In general [scrape] behaves the same
    whatever build index the checkpoint holds. *)
Theorem resume_stores_a_build_twice :
  (let w := Fixture.world (Fixture.site "t2") true in
   let interrupted := run (w (Some 9)) Fixture.config Fixture.fresh in
   let resumed := run (w None) Fixture.config (disk (snd interrupted)) in
   let uninterrupted := run (w None) Fixture.config Fixture.fresh in
   fst interrupted = Killed /\
   Fixture.urls_of (snd interrupted) = ["http://g/i1"] /\
   option_map cursor_of (loaded_checkpoint (disk (snd interrupted))) = Some (0, 0) /\
   Fixture.urls_of (snd uninterrupted) = ["http://g/i1"; "http://g/i2"] /\
   Fixture.urls_of (snd resumed) = ["http://g/i1"; "http://g/i1"; "http://g/i2"] /\
   ~ NoDup (Fixture.urls_of (snd resumed)) /\
   ~ Permutation (metadata (snd resumed)) (metadata (snd uninterrupted)) /\
   image_fetches (trace (snd resumed)) = 2) /\
  (forall w b i r ck k m n arg,
      scrape w {| base_url := b; images_dir := i; resume := r; checkpoint_data := Some ck |}
        m n arg
      = scrape w {| base_url := b; images_dir := i; resume := r;
                    checkpoint_data :=
                      Some {| current_category_idx := current_category_idx ck;
                              current_build_idx := k;
                              total_categories := total_categories ck;
                              timestamp := timestamp ck;
                              total_builds_processed := total_builds_processed ck |} |}
          m n arg).
Proof.
  split; [|reflexivity].
  cbv zeta.
  assert (E : Fixture.urls_of
                (snd (run (Fixture.world (Fixture.site "t2") true None) Fixture.config
                        (disk (snd (run (Fixture.world (Fixture.site "t2") true (Some 9))
                                      Fixture.config Fixture.fresh)))))
              = ["http://g/i1"; "http://g/i1"; "http://g/i2"]) by (vm_compute; reflexivity).
  split; [vm_compute; reflexivity|].
  split; [vm_compute; reflexivity|].
  split; [vm_compute; reflexivity|].
  split; [vm_compute; reflexivity|].
  split; [exact E|].
  split; [|split; [|vm_compute; reflexivity]].
  - rewrite E. intros H. inversion H as [|x l Hn _]; subst. apply Hn. left. reflexivity.
  - intros H. apply Permutation_length in H. vm_compute in H. discriminate.
Qed.

(** *** C3: the scenario of the two builds *)

(** C3, as stated, fails: in the scenario the summary is not
    total 2, successful 1, failed 1. *)
Lemma scenario_summary_is_not_2_1_1 :
  ~ (exists r s,
        run (Fixture.world (Fixture.site "") true None) Fixture.config Fixture.fresh
        = (Done r, s) /\
        total_builds r = 2 /\ successful_builds r = 1 /\ failed_builds r = 1).
Proof.
  intros (r & s & E & T & _). vm_compute in E. inversion E; subst. discriminate.
Qed.

(** C3, amended.  In the scenario (categories A and B; A lists i1 with tag
    t1 and image u1, and i2 with no tag and image u2; B lists nothing) the
    run stores exactly one record, i1 with images_count 1, and returns
    total 1, successful 1, failed 0: the discarded build is counted neither
    as failed nor in the total.  In general the discard happens inside
    [extract_builds_from_category], which leaves the counters and the store
    untouched and returns only builds that have tags and images. *)
Theorem discard_is_not_counted :
  (exists r s,
      run (Fixture.world (Fixture.site "") true None) Fixture.config Fixture.fresh
      = (Done r, s) /\
      total_builds r = 1 /\ successful_builds r = 1 /\ failed_builds r = 0 /\
      map (fun b => (build_url b, images_count b)) (metadata s) = [("http://g/i1", 1)] /\
      metadata_file (disk s) = Holds (metadata s)) /\
  (forall w self url s,
      results (snd (extract_builds_from_category w self url s)) = results s /\
      metadata (snd (extract_builds_from_category w self url s)) = metadata s /\
      forall builds s',
        extract_builds_from_category w self url s = (Done builds, s') ->
        Forall kept builds).
Proof.
  split.
  - eexists. eexists. split; [vm_compute; reflexivity|]. repeat split.
  - intros w self url s.
    destruct (tame_extract_builds_from_category w self url s) as [[QM QR _ _ _] _].
    split; [exact QR|]. split; [exact QM|].
    intros builds s' E. eapply extract_builds_from_category_kept; eauto.
Qed.

(** *** C6: no category *)

(** C6, as stated, fails: when the run resumes from a checkpoint, the total
    of the summary starts at the number of records loaded, and stays there
    when no category is found. *)
Lemma no_category_total_is_not_zero :
  exists r s,
    run (Fixture.world (fun _ => None) true None) Fixture.config disk_of_a_stopped_run
    = (Done r, s) /\
    category_list (Fixture.world (fun _ => None) true None)
      (scraper_of Fixture.config disk_of_a_stopped_run) (max_categories Fixture.config) = [] /\
    total_builds r = 1 /\ total_builds r <> 0.
Proof.
  eexists. eexists. split; [vm_compute; reflexivity|].
  split; [reflexivity|]. split; [reflexivity | discriminate].
Qed.

(** C6, amended.  When no category link comes out of the home page (the
    page cannot be fetched, has no such link, the cap is zero, or [urljoin]
    raises on the first link) the run
    returns at once: total_builds is the number of records loaded from the
    metadata file when resuming and zero otherwise, the other counters are
    zero, the disk is untouched, and the process did nothing but request the
    home page.  This is the only early return: a run that finds a category
    and is not killed goes on to the end of [scrape]. *)
Theorem no_category_ends_the_run (w : World) (c : Config) (d : Disk)
    (Halive : kill_at w = None) :
  (category_list w (scraper_of c d) (max_categories c) = [] ->
   run w c d =
   (Done {| total_builds := length (initial_metadata c d); successful_builds := 0;
            failed_builds := 0; total_images_downloaded := 0; started_at := now w 0 |},
    {| disk := d; metadata := initial_metadata c d;
       results := {| total_builds := length (initial_metadata c d);
                     successful_builds := 0; failed_builds := 0;
                     total_images_downloaded := 0; started_at := now w 0 |};
       trace := [EFetch (cfg_base_url c); LogNoCategories] |})) /\
  (category_list w (scraper_of c d) (max_categories c) <> [] ->
   exists r s' body, run w c d = (Done r, s') /\ trace s' = body ++ [LogCompleted]).
Proof.
  split.
  - intros E. rewrite run_eq. cbv zeta. rewrite E. simpl.
    rewrite (@never_dies w _ Halive). unfold bind, emit, gets. simpl.
    rewrite (@never_dies w _ Halive). reflexivity.
  - intros NE. pose proof (run_outcome (run_spec w c d)) as E. unfold ending in E.
    destruct (run w c d) as [[r|e|] s']; simpl in E; [|contradiction|contradiction].
    destruct E as (_ & _ & E). destruct (E NE) as [(body & HT & _) _].
    exists r, s', body. auto.
Qed.

Lemma no_category_ends_the_run_witness :
  fst (run (Fixture.world (fun _ => None) true None) Fixture.config Fixture.fresh)
  = Done {| total_builds := 0; successful_builds := 0; failed_builds := 0;
            total_images_downloaded := 0; started_at := "2024-01-01T00:00:00" |}.
Proof.
  destruct (@no_category_ends_the_run (Fixture.world (fun _ => None) true None)
              Fixture.config Fixture.fresh eq_refl) as [H _].
  rewrite (H eq_refl). reflexivity.
Defined.

(** *** C4: when the checkpoint is removed *)

Lemma unlink_split body : forall rest pre post,
  unlinks body = 0 ->
  body ++ rest = pre ++ EUnlinkCheckpoint :: post ->
  exists pre', pre = body ++ pre' /\ rest = pre' ++ EUnlinkCheckpoint :: post.
Proof.
  induction body as [|e body IH]; intros rest pre post HU HE; simpl in *.
  - exists pre. auto.
  - destruct pre as [|x pre]; simpl in HE; inversion HE; subst.
    + simpl in HU. discriminate.
    + assert (HU' : unlinks body = 0) by (destruct x; simpl in HU; congruence).
      destruct (IH _ _ _ HU' H1) as (pre' & -> & ->). exists pre'. auto.
Qed.

Lemma run_clears w c d r s' :
  run w c d = (Done r, s') ->
  category_list w (scraper_of c d) (max_categories c) <> [] ->
  checkpoint_file (disk s') = Missing \/
  exists pre, trace s' = pre ++ [EUnlinkCheckpoint; LogCompleted] /\
              write_fails w (S (length pre)) = true.
Proof.
  rewrite run_eq. cbv zeta. intros E NE.
  destruct (dies_at w 0); [discriminate|].
  destruct (is_nil _) eqn:N; [apply is_nil_true in N; contradiction|].
  rewrite bind_unfold in E.
  match type of E with
  | context [scrape_categories w ?self ?m ?n ?st ?urls ?s1] =>
      destruct (scrape_categories w self m n st urls s1) as [[[]|e|] s2]
  end; try discriminate.
  rewrite bind_unfold, _clear_checkpoint_eq in E.
  destruct (exists_ (checkpoint_file (disk s2))) eqn:X.
  - destruct (dies_at w (length (trace s2))); [discriminate|]. cbv zeta in E.
    unfold bind, emit, gets in E.
    destruct (write_fails w (length (trace (set_trace (trace s2 ++ [EUnlinkCheckpoint]) s2))))
      eqn:W; simpl in E, W;
      match type of E with
      | context [dies_at w ?t] => destruct (dies_at w t)
      end; try discriminate; inversion E; subst; simpl.
    + right. exists (trace s2). split; [now rewrite <- app_assoc|].
      rewrite length_app, Nat.add_1_r in W. exact W.
    + left. reflexivity.
  - apply exists_false in X. unfold bind, emit, gets in E.
    destruct (dies_at w (length (trace s2))); [discriminate|].
    inversion E; subst. left. exact X.
Qed.

(** C4, as stated, fails twice.  A run over a category without builds goes
    through the whole traversal and removes nothing, since no checkpoint was
    ever written; and after a run that found no category the checkpoint file
    is absent although no category was completed. *)
Lemma checkpoint_not_removed_exactly_once :
  (let s := snd (run (Fixture.world Fixture.bare_site true None)
                   Fixture.config Fixture.fresh) in
   In LogCompleted (trace s) /\ In (LogCategory 0) (trace s) /\ unlinks (trace s) <> 1) /\
  (let s := snd (run (Fixture.world (fun _ => None) true None)
                   Fixture.config Fixture.fresh) in
   checkpoint_file (disk s) = Missing /\ ~ In LogCompleted (trace s) /\
   forall k, ~ In (LogCategory k) (trace s)).
Proof.
  split; cbv zeta.
  - split; [vm_compute; tauto|]. split; [vm_compute; tauto|]. vm_compute. discriminate.
  - split; [vm_compute; reflexivity|].
    split; [vm_compute; intros [H|[H|[]]]; discriminate|].
    intros k. vm_compute. intros [H|[H|[]]]; discriminate.
Qed.

(** C4, amended.  The checkpoint is removed at most once per run, and only
    after the traversal has gone through every category of the current run,
    from the start cursor to the last one: nothing follows the removal but
    the completion mark.  A run that returns after finding categories leaves
    no checkpoint file behind, provided the disk does not refuse the
    removal, whatever it does to the other writes. *)
Theorem checkpoint_removed_at_most_once_after_traversal (w : World) (c : Config) (d : Disk) :
  unlinks (trace (snd (run w c d))) <= 1 /\
  (forall pre post,
      trace (snd (run w c d)) = pre ++ EUnlinkCheckpoint :: post ->
      (forall k, start_category_idx (scraper_of c d) None <= k
                 < length (category_list w (scraper_of c d) (max_categories c)) ->
                 In (LogCategory k) pre) /\
      (post = [] \/ post = [LogCompleted])) /\
  (forall r s',
      run w c d = (Done r, s') ->
      category_list w (scraper_of c d) (max_categories c) <> [] ->
      (forall pre post,
          trace s' = pre ++ EUnlinkCheckpoint :: post ->
          write_fails w (S (length pre)) = false) ->
      checkpoint_file (disk s') = Missing).
Proof.
  pose proof (run_spec w c d) as F.
  destruct (run_closing F) as (body & clear & done & [HT HB HC HD] & HV).
  split; [|split].
  - rewrite HT, !unlinks_app, HB.
    destruct HC as [-> | ->], HD as [-> | ->]; simpl; lia.
  - intros pre post E. rewrite HT in E.
    destruct (@unlink_split body _ _ _ HB E) as (pre' & -> & E').
    assert (P : pre' = [] /\ (post = [] \/ post = [LogCompleted]) /\ clear ++ done <> []).
    { destruct HC as [-> | ->], HD as [-> | ->]; simpl in E';
        destruct pre' as [|x [|y [|z pre']]]; simpl in E';
        repeat match goal with
               | H : _ :: _ = _ :: _ |- _ => inversion H; clear H; subst
               | H : [] = _ :: _ |- _ => discriminate H
               | H : _ :: _ = [] |- _ => discriminate H
               end;
        (split; [reflexivity|]); (split; [auto | discriminate]). }
    destruct P as (-> & P & NE). rewrite app_nil_r. split; [now apply HV | exact P].
  - intros r s' E NE Hdisk.
    destruct (@run_clears w c d r s' E NE) as [M|(pre & T & W)]; [exact M|].
    rewrite (Hdisk pre [LogCompleted] T) in W. discriminate.
Qed.

Lemma checkpoint_removed_at_most_once_after_traversal_witness :
  let w := Fixture.on_disk (Nat.eqb 7) (fun _ => true)
             (Fixture.world (Fixture.site "t2") true None) in
  In (EImageFetch "u1" "data/raw/images/build_00000_one/image_000.jpg")
    (trace (snd (run w Fixture.config Fixture.fresh))) /\
  image_files (disk (snd (run w Fixture.config Fixture.fresh)))
  = ["data/raw/images/build_00001_two/image_000.jpg"] /\
  checkpoint_file (disk (snd (run w Fixture.config Fixture.fresh))) = Missing.
Proof.
  cbv zeta. split; [vm_compute; tauto|]. split; [vm_compute; reflexivity|].
  match goal with
  | |- checkpoint_file (disk (snd (run ?w ?c ?d))) = _ =>
      destruct (@checkpoint_removed_at_most_once_after_traversal w c d) as (_ & _ & H);
      assert (E : exists r, run w c d = (Done r, snd (run w c d)))
        by (eexists; vm_compute; reflexivity)
  end.
  destruct E as (r & E). apply (H r _ E).
  - vm_compute. discriminate.
  - intros pre post T. simpl.
    destruct (length pre) as [|[|[|[|[|[|[|n]]]]]]] eqn:L; try reflexivity.
    exfalso.
    match type of T with
    | trace ?s = _ => assert (N : nth_error (trace s) 6 = Some EUnlinkCheckpoint)
    end.
    { rewrite T, nth_error_app2 by lia. rewrite L. reflexivity. }
    vm_compute in N. discriminate.
Defined.

(** *** C7: exceptions do not stop the run *)

Lemma scrape_builds_total w self c n builds : forall i s,
  match scrape_builds w self c n i builds s with
  | (Done _, s') =>
      exists evs, trace s' = trace s ++ evs /\
                  forall j, i <= j < i + length builds -> In (LogBuild j) evs
  | (Raised _, _) => False
  | (Killed, _) => kill_at w <> None
  end.
Proof.
  induction builds as [|b builds IH]; intros i s; simpl.
  - exists []. split; [apply app_nil_end_eq | intros j Hj; lia].
  - unfold bind. pose proof (scrape_build_step w self c n i b s) as St.
    destruct (scrape_build w self c n i b s) as [[[]|e|] s1]; simpl in St.
    + assert (H1 : exists evs1, trace s1 = trace s ++ evs1 /\ In (LogBuild i) evs1).
      { inversion St as [s2 b' reqs ck SI CNT HM HR HQ HT HC HN HP HG HF | ]; subst.
        eexists. split; [exact HT | simpl; auto]. }
      destruct H1 as (evs1 & HT1 & Hin1). specialize (IH (S i) s1).
      destruct (scrape_builds w self c n (S i) builds s1) as [[[]|e|] s2]; auto.
      destruct IH as (evs2 & HT2 & Hin2).
      exists (evs1 ++ evs2). split; [rewrite HT2, HT1; symmetry; apply app_assoc|].
      intros j Hj. apply in_or_app.
      destruct (Nat.eq_dec j i) as [->|Hne]; [left; exact Hin1|].
      right. apply Hin2. lia.
    + inversion St.
    + now inversion St.
Qed.

(** C7, as stated, fails.  When the page of category A cannot be fetched,
    the run goes through both categories and returns, but no checkpoint was
    saved, with build index 0 or any other, and nothing was counted.  When
    the detail page of the second build cannot be fetched, the build is
    dropped: the failed count stays at zero and the only checkpoint saved is
    the one of the first build. *)
Lemma unreachable_pages_are_not_counted :
  (let w := Fixture.world (Fixture.without "http://g/A" (Fixture.site "t2")) true None in
   exists r s,
     run w Fixture.config Fixture.fresh = (Done r, s) /\
     category_marks (trace s) = [0; 1] /\
     In (EFetch "http://g/A") (trace s) /\
     cursors (trace s) = [] /\
     failed_builds r = 0 /\ total_builds r = 0) /\
  (let w := Fixture.world (Fixture.without "http://g/i2" (Fixture.site "t2")) true None in
   exists r s,
     run w Fixture.config Fixture.fresh = (Done r, s) /\
     In (EFetch "http://g/i2") (trace s) /\
     cursors (trace s) = [(0, 0)] /\
     failed_builds r = 0 /\ total_builds r = 1).
Proof.
  split; cbv zeta.
  - eexists. eexists. split; [vm_compute; reflexivity|].
    split; [reflexivity|]. split; [simpl; tauto|]. repeat split.
  - eexists. eexists. split; [vm_compute; reflexivity|].
    split; [simpl; tauto|]. repeat split.
Qed.

(** C7, amended.  No failure aborts the run, but the handlers of lines
    527-536 are never entered, since [extract_builds_from_category] and
    [download_all_images_for_build] catch every exception themselves.
    Whatever fails while a category is read stays inside
    [extract_builds_from_category]: it never raises, counts nothing, leaves
    the checkpoint and the metadata as they are, in memory and on disk, and
    returns only builds that have tags and images.  A category whose page
    cannot be fetched yields no build, and the traversal goes on with the
    next category.  A build that reaches the loop is always appended to the
    store and counted in total_builds; it adds one to failed_builds exactly
    when none of its images was stored; and its iteration ends by saving the
    checkpoint at its position, which the checkpoint file then holds unless
    the disk refuses that write.  The loop over builds attempts every build,
    and the run never raises: unless the process is killed it visits every
    category from the start cursor on and returns. *)
Theorem exceptions_do_not_stop_the_run (w : World) :
  (forall self url s,
      match extract_builds_from_category w self url s with
      | (Done builds, s') =>
          Forall kept builds /\
          results s' = results s /\ metadata s' = metadata s /\
          cursors (trace s') = cursors (trace s) /\
          checkpoint_file (disk s') = checkpoint_file (disk s) /\
          metadata_file (disk s') = metadata_file (disk s)
      | (Raised _, _) => False
      | (Killed, s') =>
          results s' = results s /\ metadata s' = metadata s /\
          cursors (trace s') = cursors (trace s) /\
          checkpoint_file (disk s') = checkpoint_file (disk s) /\
          metadata_file (disk s') = metadata_file (disk s)
      end) /\
  (forall self m n c url s,
      kill_at w = None -> pages w url = None ->
      scrape_category w self m n c url s
      = (Done tt, set_trace (trace s ++ [LogCategory c; EFetch url]) s) /\
      forall rest,
        scrape_categories w self m n c (url :: rest) s
        = scrape_categories w self m n (S c) rest
            (set_trace (trace s ++ [LogCategory c; EFetch url]) s)) /\
  (forall self c n i b s,
      match scrape_build w self c n i b s with
      | (Done _, s') =>
          exists b' evs ck,
            metadata s' = metadata s ++ [b'] /\
            total_builds (results s') = S (total_builds (results s)) /\
            failed_builds (results s')
            = failed_builds (results s) + (if Nat.ltb 0 (images_count b') then 0 else 1) /\
            images_count b' = length (local_image_paths b') /\
            trace s' = trace s ++ evs ++ [EWriteCheckpoint ck] /\
            cursor_of ck = (c, i) /\
            (write_fails w (length (trace s')) = false ->
             checkpoint_file (disk s') = Holds ck)
      | (Raised _, _) => False
      | (Killed, _) => kill_at w <> None
      end) /\
  (forall self c n builds i s,
      match scrape_builds w self c n i builds s with
      | (Done _, s') =>
          forall j, i <= j < i + length builds -> In (LogBuild j) (trace s')
      | (Raised _, _) => False
      | (Killed, _) => kill_at w <> None
      end) /\
  (forall c d,
      match run w c d with
      | (Done _, s') =>
          forall k, start_category_idx (scraper_of c d) None <= k
                    < length (category_list w (scraper_of c d) (max_categories c)) ->
                    In (LogCategory k) (trace s')
      | (Raised _, _) => False
      | (Killed, _) => kill_at w <> None
      end).
Proof.
  split; [|split; [|split; [|split]]].
  - intros self url s.
    destruct (tame_extract_builds_from_category w self url s)
      as [[QM QR QF QC (evs & QT & QQ)] _].
    pose proof (@extract_builds_from_category_kept w self url s) as KP.
    pose proof (@extract_builds_from_category_never_raises w self url s) as NR.
    assert (C : cursors (trace (snd (extract_builds_from_category w self url s)))
                = cursors (trace s))
      by (rewrite QT, cursors_app, (requests_cursors _ QQ); apply app_nil_r).
    destruct (extract_builds_from_category w self url s) as [[builds|e|] s'];
      simpl in *; [|now elim (NR e s')|]; auto 6.
    split; [eapply KP; reflexivity | auto 6].
  - intros self m n c url s Halive Hpage.
    assert (E : scrape_category w self m n c url s
                = (Done tt, set_trace (trace s ++ [LogCategory c; EFetch url]) s)).
    { unfold scrape_category, bind, emit, try_except.
      rewrite (@never_dies w _ Halive).
      unfold extract_builds_from_category, try_except, bind.
      rewrite fetch_page_eq, (@never_dies w _ Halive), Hpage. simpl.
      rewrite firstn_nil. simpl. unfold ret, set_trace. simpl.
      now rewrite <- app_assoc. }
    split; [exact E|]. intros rest. simpl. unfold bind. now rewrite E.
  - intros self c n i b s. pose proof (scrape_build_step w self c n i b s) as St.
    destruct (scrape_build w self c n i b s) as [[[]|e|] s']; simpl in St.
    + inversion St as [s1 b' reqs ck SI CNT HM HR HQ HT HC HN HP HG HF | ]; subst.
      exists b', (LogBuild i :: reqs ++ [EWriteMetadata (metadata s')]), ck.
      split; [exact HM|]. rewrite HR. unfold tally.
      destruct (Nat.ltb 0 (images_count b')); simpl;
        (split; [reflexivity|]); (split; [lia|]); (split; [exact CNT|]);
        (split; [exact HT|]); (split; [exact HC | exact HF]).
    + inversion St.
    + now inversion St.
  - intros self c n builds i s.
    pose proof (scrape_builds_total w self c n builds i s) as T.
    destruct (scrape_builds w self c n i builds s) as [[[]|e|] s']; auto.
    destruct T as (evs & HT & Hin).
    intros j Hj. rewrite HT. apply in_or_app. right. now apply Hin.
  - intros c d. pose proof (run_outcome (run_spec w c d)) as O. unfold ending in O.
    destruct (run w c d) as [[r|e|] s']; simpl in O; auto.
    destruct O as (_ & _ & O). intros k Hk.
    assert (NE : category_list w (scraper_of c d) (max_categories c) <> []).
    { intros Z. rewrite Z in Hk. simpl in Hk. lia. }
    destruct (O NE) as [(body & HT & HV) _].
    rewrite HT. apply in_or_app. left. now apply HV.
Qed.

Lemma exceptions_do_not_stop_the_run_witness :
  let w := Fixture.world (Fixture.without "http://g/A" (Fixture.site "t2")) true None in
  scrape_category w (scraper_of Fixture.config Fixture.fresh) 100 2 0 "http://g/A"
    (boot Fixture.fresh)
  = (Done tt, set_trace [LogCategory 0; EFetch "http://g/A"] (boot Fixture.fresh)).
Proof.
  cbv zeta.
  match goal with
  | |- scrape_category ?w ?self ?m ?n ?c ?url ?s = _ =>
      destruct (@exceptions_do_not_stop_the_run w) as (_ & H & _);
      destruct (H self m n c url s eq_refl eq_refl) as [E _]
  end.
  exact E.
Defined.

(** *** C8: fetching an image *)

Lemma mem_head p l : mem p (p :: l) = true.
Proof. unfold mem. simpl. now rewrite String.eqb_refl. Qed.

Lemma download_each_never_raises w urls : forall dir idx b s,
  match download_each w dir idx urls b s with
  | (Raised _, _) => False
  | _ => True
  end.
Proof.
  induction urls as [|url urls IH]; intros dir idx b s; simpl; [exact I|].
  unfold bind, try_except.
  destruct (acquire w url (image_path dir idx) b s) as [[b1|e|] s1]; simpl; auto.
  - apply IH.
  - apply IH.
Qed.

Lemma acquire_present w url p b s :
  mem p (image_files (disk s)) = true ->
  acquire w url p b s = (Done (append_path p b), s).
Proof. intros Hp. unfold acquire, bind, gets. rewrite Hp. reflexivity. Qed.

Lemma acquire_absent w url p b s :
  kill_at w = None -> (forall t, write_fails w t = false) ->
  mem p (image_files (disk s)) = false ->
  acquire w url p b s =
  if image_ok w url
  then (Done (append_path p b),
        set_disk (add_image_file p (disk s))
          (set_trace (trace s ++ [EImageFetch url p]) s))
  else (Done b, set_trace (trace s ++ [EImageFetch url p]) s).
Proof.
  intros Halive Hdisk Hp.
  unfold acquire, download_image, try_except, emit, disk_op, bind, gets.
  rewrite Hp. cbv beta iota. rewrite (@never_dies w _ Halive). cbv beta iota.
  destruct (image_ok w url); cbv beta iota; [|reflexivity].
  rewrite Hdisk. reflexivity.
Qed.

(** C8, as stated, fails: when the download fails no file is left at the
    destination, and acquiring the same image again fetches it again. *)
Lemma failed_image_is_fetched_twice :
  let w := Fixture.world (Fixture.site "t2") false None in
  let b := {| title := "one"; build_url := "http://g/i1"; tags := ["t1"];
              category_url := "http://g/A"; scraped_at := ""; image_urls := ["u1"];
              local_image_paths := []; images_count := 0; build_directory := None |} in
  let s1 := snd (acquire w "u1" "d/image_000.jpg" b (boot Fixture.fresh)) in
  let s2 := snd (acquire w "u1" "d/image_000.jpg" b s1) in
  image_fetches (trace s2) = 2 /\ image_fetches (trace s2) <> 1.
Proof. cbv zeta. split; [vm_compute; reflexivity | vm_compute; discriminate]. Qed.

(** C8, amended.  On a disk that accepts writes and in a world that does
    not kill the process: when a file is already at the destination path
    the image is not fetched at all; otherwise acquiring the same (url,
    destination path) twice fetches once when the download succeeds, since
    the file it leaves makes the second call skip the fetch, and twice when
    the download fails.  A failure on one image never escapes the loop,
    which goes on with the remaining images of the build. *)
Theorem image_fetched_once_when_stored (w : World) (url p : string) (b b' : Build)
    (s : St) (Halive : kill_at w = None) (Hdisk : forall t, write_fails w t = false) :
  (mem p (image_files (disk s)) = true ->
   acquire w url p b s = (Done (append_path p b), s)) /\
  (mem p (image_files (disk s)) = false ->
   exists b1 s1 b2 s2,
     acquire w url p b s = (Done b1, s1) /\
     acquire w url p b' s1 = (Done b2, s2) /\
     image_fetches (trace s2)
     = image_fetches (trace s) + (if image_ok w url then 1 else 2)) /\
  (forall dir idx urls bb ss,
      match download_each w dir idx urls bb ss with
      | (Raised _, _) => False
      | _ => True
      end) /\
  (forall dir idx u rest bb ss,
      image_ok w u = false ->
      mem (image_path dir idx) (image_files (disk ss)) = false ->
      download_each w dir idx (u :: rest) bb ss
      = download_each w dir (S idx) rest bb
          (set_trace (trace ss ++ [EImageFetch u (image_path dir idx)]) ss)).
Proof.
  split; [|split; [|split]].
  - apply acquire_present.
  - intros Hp. rewrite (@acquire_absent w url p b s Halive Hdisk Hp).
    destruct (image_ok w url) eqn:Ok.
    + do 4 eexists. split; [reflexivity|]. split.
      * apply acquire_present. simpl. apply mem_head.
      * simpl. rewrite image_fetches_app. reflexivity.
    + do 4 eexists. split; [reflexivity|]. split.
      * rewrite (@acquire_absent w url p b' _ Halive Hdisk); [|exact Hp].
        rewrite Ok. reflexivity.
      * simpl. rewrite !image_fetches_app. simpl. lia.
  - intros. apply download_each_never_raises.
  - intros dir idx u rest bb ss Ok Hp. simpl.
    unfold bind at 1. unfold try_except.
    rewrite (@acquire_absent w u _ bb ss Halive Hdisk Hp), Ok. reflexivity.
Qed.

Lemma image_fetched_once_when_stored_witness :
  let w := Fixture.world (Fixture.site "t2") true None in
  let b := {| title := "one"; build_url := "http://g/i1"; tags := ["t1"];
              category_url := "http://g/A"; scraped_at := ""; image_urls := ["u1"];
              local_image_paths := []; images_count := 0; build_directory := None |} in
  exists b1 s1 b2 s2,
    acquire w "u1" "d/image_000.jpg" b (boot Fixture.fresh) = (Done b1, s1) /\
    acquire w "u1" "d/image_000.jpg" b s1 = (Done b2, s2) /\
    image_fetches (trace s2) = 1.
Proof.
  cbv zeta.
  match goal with |- exists b1 s1 b2 s2, acquire ?w ?u ?p ?b ?s = _ /\ _ =>
    destruct (@image_fetched_once_when_stored w u p b b s eq_refl (fun _ => eq_refl))
      as (_ & H & _)
  end.
  destruct (H eq_refl) as (b1 & s1 & b2 & s2 & E1 & E2 & N).
  exists b1, s1, b2, s2. split; [exact E1|]. split; [exact E2|]. exact N.
Defined.

(** ** Further properties of the collaborators *)

(** *** Names and tags *)

Lemma string_filter_forallb p s : string_forallb p (string_filter p s) = true.
Proof.
  induction s as [|c r IH]; simpl; [reflexivity|].
  destruct (p c) eqn:E; simpl; [rewrite E; exact IH | exact IH].
Qed.

Lemma substring_prefix_forallb p n : forall s,
  string_forallb p s = true -> string_forallb p (substring 0 n s) = true.
Proof.
  induction n as [|n IH]; intros s H.
  - destruct s; reflexivity.
  - destruct s as [|c r]; simpl in *; [reflexivity|].
    apply andb_true_iff in H. destruct H as [Hc Hr]. rewrite Hc. simpl. now apply IH.
Qed.

Lemma substring_prefix_length n : forall s, String.length (substring 0 n s) <= n.
Proof.
  induction n as [|n IH]; intros s.
  - destruct s; simpl; lia.
  - destruct s as [|c r]; simpl; [lia|]. specialize (IH r). lia.
Qed.

(** X1.  For a title made of ASCII characters, the directory name of a
    build is at most 50 characters long, is made of ASCII letters, digits,
    [_] and [-] only, and starts with [build_]. *)
Theorem build_id_is_a_safe_name (build_idx : nat) (title : string)
    (Hascii : string_forallb is_ascii title = true) :
  String.length (build_id_of build_idx title) <= 50 /\
  string_forallb safe_char (build_id_of build_idx title) = true /\
  String.prefix "build_" (build_id_of build_idx title) = true.
Proof.
  unfold build_id_of. split; [apply substring_prefix_length|]. split.
  - apply substring_prefix_forallb. apply (string_filter_forallb safe_char).
  - simpl. destruct (substring 0 44 _); reflexivity.
Qed.

Lemma build_id_is_a_safe_name_witness :
  build_id_of 12 "St. Mary's church / chapel (v2)" = "build_00012_StMaryschurchchapelv2" /\
  string_forallb safe_char (build_id_of 12 "St. Mary's church / chapel (v2)") = true.
Proof.
  split; [reflexivity|].
  apply (@build_id_is_a_safe_name 12 "St. Mary's church / chapel (v2)"). reflexivity.
Defined.

Lemma split_pieces sep s :
  Forall (fun piece => string_forallb (fun c => negb (Ascii.eqb c sep)) piece = true)
    (split sep s).
Proof.
  induction s as [|c r IH]; simpl.
  - constructor; [reflexivity | constructor].
  - destruct (Ascii.eqb c sep) eqn:E.
    + constructor; [reflexivity | exact IH].
    + destruct (split sep r) as [|h t]; inversion IH; subst.
      * constructor; [simpl; now rewrite E | constructor].
      * constructor; [simpl; rewrite E; simpl; assumption | assumption].
Qed.

Lemma lstrip_forallb p s : string_forallb p s = true -> string_forallb p (lstrip s) = true.
Proof.
  induction s as [|c r IH]; simpl; intros H; [reflexivity|].
  destruct (isspace c); [|exact H].
  apply andb_true_iff in H. now apply IH.
Qed.

Lemma rstrip_forallb p s : string_forallb p s = true -> string_forallb p (rstrip s) = true.
Proof.
  induction s as [|c r IH]; simpl; intros H; [reflexivity|].
  apply andb_true_iff in H. destruct H as [Hc Hr]. specialize (IH Hr).
  destruct (rstrip r) as [|c' r'].
  - destruct (isspace c); simpl; [reflexivity | now rewrite Hc].
  - simpl in *. now rewrite Hc.
Qed.

Lemma lstrip_first s : nonempty (lstrip s) = true -> solid (first_char (lstrip s)).
Proof.
  induction s as [|c r IH]; simpl; intros H; [discriminate|].
  destruct (isspace c) eqn:E; [now apply IH|].
  exists c. auto.
Qed.

Lemma rstrip_first s : nonempty (rstrip s) = true -> first_char (rstrip s) = first_char s.
Proof.
  destruct s as [|c r]; simpl; intros H; [discriminate|].
  destruct (rstrip r); [|reflexivity].
  destruct (isspace c); [discriminate | reflexivity].
Qed.

Lemma rstrip_last s : nonempty (rstrip s) = true -> solid (last_char (rstrip s)).
Proof.
  induction s as [|c r IH]; simpl; intros H; [discriminate|].
  destruct (rstrip r) as [|c' r'] eqn:E.
  - destruct (isspace c) eqn:Sp; [discriminate|]. exists c. auto.
  - simpl. apply IH. reflexivity.
Qed.

Lemma strip_solid s :
  nonempty (strip s) = true -> solid (first_char (strip s)) /\ solid (last_char (strip s)).
Proof.
  unfold strip. intros H. split; [|now apply rstrip_last].
  rewrite (rstrip_first _ H). apply lstrip_first.
  destruct (lstrip s); [discriminate H | reflexivity].
Qed.

(** X2.  Every tag read off a detail page is non-empty, neither starts nor
    ends with white space, and holds no comma: empty pieces between commas
    are dropped. *)
Theorem parse_tags_gives_clean_tags (tags_text : string) :
  Forall (fun tag =>
            solid (first_char tag) /\ solid (last_char tag) /\
            string_forallb (fun c => negb (Ascii.eqb c ",")) tag = true)
    (parse_tags tags_text).
Proof.
  unfold parse_tags. apply Forall_forall. intros tag Hin.
  apply in_map_iff in Hin. destruct Hin as (piece & <- & Hin).
  apply filter_In in Hin. destruct Hin as [Hin Hne].
  destruct (strip_solid _ Hne) as [F L]. split; [exact F|]. split; [exact L|].
  unfold strip. apply rstrip_forallb, lstrip_forallb.
  pose proof (split_pieces "," tags_text) as P. rewrite Forall_forall in P. now apply P.
Qed.

(** *** The list of categories *)

Lemma mem_In x l : mem x l = true <-> In x l.
Proof.
  unfold mem. rewrite existsb_exists. split.
  - intros (y & Hin & E). apply String.eqb_eq in E. now subst.
  - intros Hin. exists x. split; [exact Hin | apply String.eqb_refl].
Qed.

Lemma add_category_fold w self hrefs : forall acc,
  NoDup acc ->
  NoDup (fold_left (add_category w self) hrefs acc) /\
  length (fold_left (add_category w self) hrefs acc) <= length acc + length hrefs /\
  (forall u, In u (fold_left (add_category w self) hrefs acc) <->
             In u acc \/ exists href, In href hrefs /\
                                     u = urljoin w (base_url self) href).
Proof.
  induction hrefs as [|href hrefs IH]; intros acc Hacc; simpl.
  - split; [exact Hacc|]. split; [lia|]. intros u. split; [auto|].
    intros [H|(h & [] & _)]. exact H.
  - change (add_category w self acc href)
      with (if mem (urljoin w (base_url self) href) acc then acc
            else acc ++ [urljoin w (base_url self) href]).
    destruct (mem (urljoin w (base_url self) href) acc) eqn:E.
    + destruct (IH acc Hacc) as (N & L & I). split; [exact N|]. split; [lia|].
      intros u. rewrite I. split.
      * intros [H|(h & Hh & Eu)]; [auto | right; exists h; auto].
      * intros [H|(h & [<-|Hh] & Eu)]; [auto| |right; exists h; auto].
        left. subst u. now apply mem_In.
    + assert (Hn : NoDup (acc ++ [urljoin w (base_url self) href])).
      { apply NoDup_app; [exact Hacc | constructor; [intros [] | constructor] |].
        intros x Hx [<-|[]]. apply mem_In in Hx. congruence. }
      destruct (IH _ Hn) as (N & L & I). split; [exact N|]. split.
      * rewrite length_app in L. simpl in L. lia.
      * intros u. rewrite I. rewrite in_app_iff. simpl. split.
        -- intros [[H|[<-|[]]]|(h & Hh & Eu)]; [auto | right; exists href; auto
                                                | right; exists h; auto].
        -- intros [H|(h & [<-|Hh] & Eu)]; [auto | left; right; left; now subst
                                           | right; exists h; auto].
Qed.

Lemma add_categories_fold w self hrefs : forall acc,
  add_categories w self hrefs acc
  = fold_left (add_category w self) (joinable w (base_url self) hrefs) acc.
Proof.
  induction hrefs as [|href hrefs IH]; intros acc; simpl; [reflexivity|].
  destruct (urljoin_raises w (base_url self) href); [reflexivity | apply IH].
Qed.

Lemma joinable_length w base hrefs : length (joinable w base hrefs) <= length hrefs.
Proof.
  induction hrefs as [|href hrefs IH]; simpl; [lia|].
  destruct (urljoin_raises w base href); simpl; lia.
Qed.

Lemma joinable_all w base hrefs :
  (forall href, In href hrefs -> urljoin_raises w base href = false) ->
  joinable w base hrefs = hrefs.
Proof.
  induction hrefs as [|href hrefs IH]; simpl; intros H; [reflexivity|].
  rewrite (H href (or_introl eq_refl)). f_equal. apply IH. intros h Hh. apply H. now right.
Qed.

Lemma joinable_sound w base hrefs href :
  In href (joinable w base hrefs) -> In href hrefs /\ urljoin_raises w base href = false.
Proof.
  induction hrefs as [|h hrefs IH]; simpl; [intros []|].
  destruct (urljoin_raises w base h) eqn:E; [intros []|].
  intros [<-|Hin]; [auto|]. destruct (IH Hin). auto.
Qed.

Lemma category_list_spec w self n :
  NoDup (category_list w self n) /\
  length (category_list w self n) <= n /\
  match pages w (base_url self) with
  | Some soup =>
      forall u, In u (category_list w self n) <->
                exists href,
                  In href (joinable w (base_url self) (firstn n (cats_links soup))) /\
                  u = urljoin w (base_url self) href
  | None => category_list w self n = []
  end.
Proof.
  unfold category_list.
  destruct (pages w (base_url self)) as [soup|];
    [|split; [constructor|]; split; [simpl; lia | reflexivity]].
  rewrite add_categories_fold.
  destruct (@add_category_fold w self
              (joinable w (base_url self) (firstn n (cats_links soup))) []
              (NoDup_nil _)) as (N & L & I).
  split; [exact N|]. split.
  - pose proof (joinable_length w (base_url self) (firstn n (cats_links soup))) as J.
    simpl in L. rewrite length_firstn in J. lia.
  - intros u. rewrite I. split; [intros [[]|H]; exact H | auto].
Qed.

(** X3.  The category URLs that [get_category_urls] returns are pairwise
    distinct and at most [max_categories] many.  They are the joins of the
    base URL with the category links of the home page, taken among the first
    [max_categories] links up to the first one on which [urljoin] raises:
    every link before it is represented, no link after it is.  When no join
    raises, each of the first [max_categories] links is represented; when
    the home page cannot be fetched the list is empty. *)
Theorem category_urls_are_distinct_and_capped (w : World) (self : Scraper)
    (max_categories : nat) (s : St) (category_urls : list string) (s' : St)
    (Hdone : get_category_urls w self max_categories s = (Done category_urls, s')) :
  NoDup category_urls /\
  length category_urls <= max_categories /\
  (forall soup, pages w (base_url self) = Some soup ->
     (forall u, In u category_urls <->
                exists href,
                  In href (joinable w (base_url self)
                             (firstn max_categories (cats_links soup))) /\
                  u = urljoin w (base_url self) href) /\
     (forall u, In u category_urls ->
                exists href,
                  In href (firstn max_categories (cats_links soup)) /\
                  urljoin_raises w (base_url self) href = false /\
                  u = urljoin w (base_url self) href) /\
     ((forall href, In href (firstn max_categories (cats_links soup)) ->
                    urljoin_raises w (base_url self) href = false) ->
      forall href, In href (firstn max_categories (cats_links soup)) ->
                   In (urljoin w (base_url self) href) category_urls)) /\
  (pages w (base_url self) = None -> category_urls = []).
Proof.
  rewrite get_category_urls_eq in Hdone.
  destruct (dies_at w (length (trace s))); [discriminate|].
  inversion Hdone; subst. clear Hdone.
  destruct (category_list_spec w self max_categories) as (N & L & I).
  split; [exact N|]. split; [exact L|]. split.
  - intros soup E. rewrite E in I. split; [exact I|]. split.
    + intros u Hu. apply I in Hu. destruct Hu as (href & Hin & ->).
      destruct (joinable_sound _ _ _ _ Hin) as [H1 H2]. exists href. auto.
    + intros Hall href Hin. apply I. exists href. split; [|reflexivity].
      now rewrite (joinable_all _ _ _ Hall).
  - intros E. now rewrite E in I.
Qed.

Lemma category_urls_are_distinct_and_capped_witness :
  exists s',
    get_category_urls (Fixture.choking_on "/bad" (Fixture.world Fixture.three_links true None))
      (scraper_of Fixture.config Fixture.fresh) 100 (boot Fixture.fresh)
    = (Done ["http://g/A"], s') /\
    NoDup ["http://g/A"].
Proof.
  eexists. split; [vm_compute; reflexivity|].
  destruct (@category_urls_are_distinct_and_capped
              (Fixture.choking_on "/bad" (Fixture.world Fixture.three_links true None))
              (scraper_of Fixture.config Fixture.fresh) 100 (boot Fixture.fresh)
              ["http://g/A"] _ eq_refl) as (N & _).
  exact N.
Defined.

(** *** Persistence round trips *)

(** X4.  In a world that does not kill the process, [_save_metadata]
    always returns normally.  When the disk accepts the write, loading the
    metadata again gives back [self.metadata].  When the disk refuses it
    before the file is opened, the load gives what the file held before;
    when it refuses it after [open] has truncated the file, the load gives
    the empty list, whatever the file held. *)
Theorem saved_metadata_is_loaded_back (w : World) (s : St) (Halive : kill_at w = None) :
  exists s',
    _save_metadata w s = (Done tt, s') /\
    metadata s' = metadata s /\
    trace s' = trace s ++ [EWriteMetadata (metadata s)] /\
    (write_fails w (length (trace s')) = false ->
     _load_metadata s' = (Done (metadata s), s')) /\
    (write_fails w (length (trace s')) = true ->
     write_tears w (length (trace s')) = false ->
     _load_metadata s' = (Done (loaded_metadata (disk s)), s')) /\
    (write_fails w (length (trace s')) = true ->
     write_tears w (length (trace s')) = true ->
     metadata_file (disk s') = Malformed /\ _load_metadata s' = (Done [], s')).
Proof.
  rewrite _save_metadata_eq, (@never_dies w _ Halive). cbv zeta.
  destruct (write_fails w (length (trace (set_trace (trace s ++ [EWriteMetadata (metadata s)]) s))))
    eqn:W;
    [destruct (write_tears w (length (trace (set_trace (trace s ++ [EWriteMetadata (metadata s)]) s))))
       eqn:T|];
    simpl in *; eexists; (split; [reflexivity|]); simpl;
    (split; [reflexivity|]); (split; [reflexivity|]);
    repeat split; intros; try congruence; rewrite _load_metadata_eq; reflexivity.
Qed.

Lemma saved_metadata_is_loaded_back_witness :
  let w := Fixture.on_disk (Nat.eqb 9) (fun _ => true)
             (Fixture.world (Fixture.site "t2") true None) in
  let s := snd (run (Fixture.world (Fixture.site "t2") true (Some 8))
                  Fixture.config Fixture.fresh) in
  length (metadata s) = 1 /\ metadata_file (disk s) = Holds (metadata s) /\
  exists s',
    _save_metadata w s = (Done tt, s') /\
    metadata_file (disk s') = Malformed /\
    _load_metadata s' = (Done [], s').
Proof.
  cbv zeta. split; [vm_compute; reflexivity|]. split; [vm_compute; reflexivity|].
  match goal with
  | |- exists s', _save_metadata ?w ?s = _ /\ _ =>
      destruct (@saved_metadata_is_loaded_back w s eq_refl)
        as (s' & E & _ & T & _ & _ & H)
  end.
  exists s'. split; [exact E|]. apply H; rewrite T; vm_compute; reflexivity.
Defined.

(** X5.  A checkpoint saved at category [c], build [i], on a disk that
    accepts the write, is what the next process finds: its constructor
    loads that checkpoint, and with resume enabled [scrape] starts at
    category [c] with the records of the metadata file, whatever [i] is;
    with resume disabled it starts at category 0 with an empty store. *)
Theorem saved_checkpoint_sets_the_start (w : World) (c i n : nat) (s : St)
    (Halive : kill_at w = None)
    (Hdisk : write_fails w (length (trace s ++ [EWriteCheckpoint (checkpoint_now w c i n s)]))
             = false) :
  exists s',
    _save_checkpoint w c i n s = (Done tt, s') /\
    _load_checkpoint s' = (Done (Some (checkpoint_now w c i n s)), s') /\
    cursor_of (checkpoint_now w c i n s) = (c, i) /\
    total_builds_processed (checkpoint_now w c i n s) = length (metadata s) /\
    forall cfg,
      Scraper_init w (cfg_base_url cfg) (cfg_images_dir cfg) (cfg_resume cfg)
        (boot (disk s'))
      = (Done (scraper_of cfg (disk s')), boot (disk s')) /\
      (cfg_resume cfg = true ->
       start_category_idx (scraper_of cfg (disk s')) None = c /\
       initial_metadata cfg (disk s') = loaded_metadata (disk s)) /\
      (cfg_resume cfg = false ->
       start_category_idx (scraper_of cfg (disk s')) None = 0 /\
       initial_metadata cfg (disk s') = []).
Proof.
  rewrite _save_checkpoint_eq, (@never_dies w _ Halive). cbv zeta.
  simpl trace. rewrite Hdisk.
  eexists. split; [reflexivity|]. split; [apply _load_checkpoint_eq|].
  split; [reflexivity|]. split; [reflexivity|].
  intros cfg. split; [|split].
  - unfold Scraper_init, bind, modify, ret. rewrite _load_checkpoint_eq. reflexivity.
  - intros R. unfold start_category_idx, initial_metadata, resuming, scraper_of,
      loaded_checkpoint, loaded_metadata. simpl. rewrite R. auto.
  - intros R. unfold start_category_idx, initial_metadata, resuming, scraper_of,
      loaded_checkpoint. simpl. rewrite R. auto.
Qed.

Lemma saved_checkpoint_sets_the_start_witness :
  exists s',
    _save_checkpoint (Fixture.world (Fixture.site "t2") true None) 3 7 9
      (boot Fixture.fresh) = (Done tt, s') /\
    start_category_idx (scraper_of Fixture.config (disk s')) None = 3.
Proof.
  destruct (@saved_checkpoint_sets_the_start (Fixture.world (Fixture.site "t2") true None)
              3 7 9 (boot Fixture.fresh) eq_refl eq_refl) as (s' & E & _ & _ & _ & H).
  exists s'. split; [exact E|].
  destruct (H Fixture.config) as (_ & R & _). apply R. reflexivity.
Defined.

(** X6.  Clearing the checkpoint never raises.  When no checkpoint file is
    there it does nothing at all; otherwise it makes one unlink, and if the
    disk accepts it the next process finds no checkpoint: whatever its
    resume flag, it starts at category 0 from an empty store, without reading
    the metadata file. *)
Theorem cleared_checkpoint_means_a_fresh_start (w : World) (s : St)
    (Halive : kill_at w = None) :
  (checkpoint_file (disk s) = Missing -> _clear_checkpoint w s = (Done tt, s)) /\
  (checkpoint_file (disk s) <> Missing ->
   exists s',
     _clear_checkpoint w s = (Done tt, s') /\
     trace s' = trace s ++ [EUnlinkCheckpoint] /\
     metadata_file (disk s') = metadata_file (disk s) /\
     (write_fails w (length (trace s')) = true ->
      checkpoint_file (disk s') = checkpoint_file (disk s)) /\
     (write_fails w (length (trace s')) = false ->
      _load_checkpoint s' = (Done None, s') /\
      forall cfg,
        resuming (scraper_of cfg (disk s')) None = false /\
        start_category_idx (scraper_of cfg (disk s')) None = 0 /\
        initial_metadata cfg (disk s') = [])).
Proof.
  split.
  - intros E. rewrite _clear_checkpoint_eq, E. reflexivity.
  - intros NE. rewrite _clear_checkpoint_eq.
    assert (X : exists_ (checkpoint_file (disk s)) = true)
      by (destruct (checkpoint_file (disk s)); [now elim NE | | |]; reflexivity).
    rewrite X, (@never_dies w _ Halive). cbv zeta.
    match goal with |- context [write_fails w ?t] => destruct (write_fails w t) eqn:W end;
      simpl in W; eexists; (split; [reflexivity|]); simpl;
      (split; [reflexivity|]); (split; [reflexivity|]);
      (split; intros H; [|]); try congruence; try reflexivity.
    split; [rewrite _load_checkpoint_eq; reflexivity|].
    intros cfg. repeat split.
Qed.

Lemma cleared_checkpoint_means_a_fresh_start_witness :
  exists s',
    _clear_checkpoint (Fixture.world (Fixture.site "t2") true None)
      (boot (disk_with_cursor 3)) = (Done tt, s') /\
    _load_checkpoint s' = (Done None, s').
Proof.
  destruct (@cleared_checkpoint_means_a_fresh_start
              (Fixture.world (Fixture.site "t2") true None)
              (boot (disk_with_cursor 3)) eq_refl) as (_ & H).
  destruct H as (s' & E & _ & _ & _ & L); [discriminate|].
  exists s'. split; [exact E|]. apply L. reflexivity.
Defined.

(** *** Downloading the images of a build *)

Lemma grows_refl d : grows d d.
Proof. intros p H. exact H. Qed.

Lemma grows_trans d1 d2 d3 : grows d1 d2 -> grows d2 d3 -> grows d1 d3.
Proof. intros H1 H2 p H. auto. Qed.

Lemma grows_add p d : grows d (add_image_file p d).
Proof.
  intros q H. unfold mem in *. simpl. rewrite H. apply orb_true_r.
Qed.

Lemma acquire_outcome w url p b s :
  grows (disk s) (disk (snd (acquire w url p b s))) /\
  match fst (acquire w url p b s) with
  | Done b' =>
      b' = b \/
      (b' = append_path p b /\ mem p (image_files (disk (snd (acquire w url p b s)))) = true)
  | Raised _ => False
  | Killed => kill_at w <> None
  end.
Proof.
  unfold acquire, download_image, try_except, emit, disk_op, bind, gets.
  destruct (mem p (image_files (disk s))) eqn:Hp; cbv beta iota.
  { simpl. split; [apply grows_refl | auto]. }
  destruct (dies_at w (length (trace s))) eqn:D; cbv beta iota.
  { simpl. split; [apply grows_refl | eapply dies_at_kill; eauto]. }
  destruct (image_ok w url); cbv beta iota.
  - match goal with |- context [write_fails w ?t] => destruct (write_fails w t) end;
      simpl.
    + split; [apply grows_refl | auto].
    + split; [apply grows_add|]. right. split; [reflexivity | apply mem_head].
  - simpl. split; [apply grows_refl | auto].
Qed.

Lemma with_images_same b : with_images (local_image_paths b ++ []) (images_count b)
                             (build_directory b) b = b.
Proof. destruct b. unfold with_images. simpl. now rewrite app_nil_r. Qed.

Lemma download_each_outcome w dir urls : forall idx b s,
  grows (disk s) (disk (snd (download_each w dir idx urls b s))) /\
  forall b', fst (download_each w dir idx urls b s) = Done b' ->
    exists added,
      b' = with_images (local_image_paths b ++ added) (images_count b)
             (build_directory b) b /\
      length added <= length urls /\
      Forall (fun p => mem p (image_files
                                (disk (snd (download_each w dir idx urls b s)))) = true)
        added /\
      Forall (fun p => exists k, idx <= k < idx + length urls /\ p = image_path dir k)
        added.
Proof.
  induction urls as [|url urls IH]; intros idx b s; simpl.
  - split; [apply grows_refl|]. intros b' E. inversion E; subst.
    exists []. split; [symmetry; apply with_images_same|].
    split; [reflexivity|]. split; constructor.
  - unfold bind, try_except.
    destruct (acquire_outcome w url (image_path dir idx) b s) as [G A].
    destruct (acquire w url (image_path dir idx) b s) as [[b1|e|] s1]; simpl in *;
      [|contradiction|split; [exact G | discriminate]].
    destruct (IH (S idx) b1 s1) as [G' A'].
    split; [eapply grows_trans; eauto|].
    intros b' E. destruct (A' b' E) as (added & -> & L & F & P).
    assert (P' : Forall (fun p => exists k, idx <= k < idx + S (length urls) /\
                                            p = image_path dir k) added).
    { eapply Forall_impl; [|exact P]. intros p (k & Hk & ->). exists k. split; [lia|auto]. }
    destruct A as [-> | [-> Hm]].
    + exists added. split; [reflexivity|]. split; [lia|]. split; [exact F | exact P'].
    + exists (image_path dir idx :: added). split.
      * unfold append_path, with_images. simpl. now rewrite <- app_assoc.
      * split; [simpl; lia|]. split.
        -- constructor; [now apply G' | exact F].
        -- constructor; [exists idx; split; [lia | reflexivity] | exact P'].
Qed.

(** X7.  When [download_all_images_for_build] returns, the build
    dictionary keeps its title, URL, tags and image URLs; [images_count] is
    the number of local paths, which is at most the number of image URLs;
    every local path is the path of an image index of that build, and a file
    is on disk at each of them; and no image file that was on disk has
    disappeared. *)
Theorem downloaded_images_are_on_disk (w : World) (self : Scraper) (b : Build)
    (build_idx : nat) (s : St) (b' : Build) (s' : St)
    (Hdone : download_all_images_for_build w self b build_idx s = (Done b', s')) :
  title b' = title b /\ build_url b' = build_url b /\
  tags b' = tags b /\ image_urls b' = image_urls b /\
  images_count b' = length (local_image_paths b') /\
  images_count b' <= length (image_urls b) /\
  Forall (fun p => mem p (image_files (disk s')) = true) (local_image_paths b') /\
  Forall (fun p => exists k, k < length (image_urls b) /\
                             p = image_path (path_join (images_dir self)
                                               (build_id_of build_idx (title b))) k)
    (local_image_paths b') /\
  grows (disk s) (disk s').
Proof.
  unfold download_all_images_for_build in Hdone.
  destruct (nonempty (build_url (with_images [] 0 (build_directory b) b))).
  - unfold try_except, bind in Hdone. simpl in Hdone.
    match type of Hdone with
    | context [download_each w ?d 0 ?u ?b0 s] =>
        destruct (download_each_outcome w d u 0 b0 s) as [G A];
        destruct (download_each w d 0 u b0 s) as [[b1|e|] s1] eqn:E
    end; simpl in *; try discriminate.
    + inversion Hdone; subst. destruct (A b1 eq_refl) as (added & -> & L & F & P).
      simpl. repeat split; auto.
      eapply Forall_impl; [|exact P]. intros p (k & Hk & ->). exists k. split; [lia|auto].
    + inversion Hdone; subst. simpl. repeat split; auto; try lia; constructor.
  - inversion Hdone; subst. simpl.
    repeat split; auto; try lia; try constructor. apply grows_refl.
Qed.

Lemma downloaded_images_are_on_disk_witness :
  exists b' s',
    download_all_images_for_build (Fixture.world (Fixture.site "t2") true None)
      (scraper_of Fixture.config Fixture.fresh)
      {| title := "one"; build_url := "http://g/i1"; tags := ["t1"];
         category_url := "http://g/A"; scraped_at := ""; image_urls := ["u1"; "u2"];
         local_image_paths := []; images_count := 0; build_directory := None |}
      4 (boot Fixture.fresh) = (Done b', s') /\
    images_count b' = length (local_image_paths b') /\
    Forall (fun p => mem p (image_files (disk s')) = true) (local_image_paths b').
Proof.
  eexists. eexists. split; [vm_compute; reflexivity|].
  match goal with |- images_count ?b = _ /\ Forall _ _ =>
    destruct (@downloaded_images_are_on_disk
                (Fixture.world (Fixture.site "t2") true None)
                (scraper_of Fixture.config Fixture.fresh)
                {| title := "one"; build_url := "http://g/i1"; tags := ["t1"];
                   category_url := "http://g/A"; scraped_at := "";
                   image_urls := ["u1"; "u2"];
                   local_image_paths := []; images_count := 0; build_directory := None |}
                4 (boot Fixture.fresh) b _ eq_refl)
      as (_ & _ & _ & _ & C & _ & F & _)
  end.
  split; [exact C | exact F].
Defined.

(** *** Reading a category page *)

Lemma listed_with_detail url tgs imgs b : listed_in url b -> listed_in url (with_detail tgs imgs b).
Proof. intros H. exact H. Qed.

Lemma _extract_build_info_listed w self index item url :
  yields (fun o => forall b, o = Some b -> listed_in url b)
    (_extract_build_info w self index item url).
Proof.
  unfold _extract_build_info. apply yields_try.
  - destruct item as [[text href]|]; [|apply yields_raise].
    destruct (urljoin_raises w (base_url self) href); [apply yields_raise|].
    destruct (nonempty (urljoin w (base_url self) href)) eqn:E.
    + eapply yields_bind; [apply yields_any|]. intros t _.
      apply yields_ret. intros b Hb. inversion Hb; subst. unfold listed_in. simpl.
      repeat split; auto. destruct (nonempty text) eqn:T; [exact T | reflexivity].
    + apply yields_ret. discriminate.
  - intros e. apply yields_ret. discriminate.
Qed.

Lemma extract_build_listed w self index item url builds :
  Forall (listed_in url) builds ->
  yields (fun bs => Forall (listed_in url) bs /\ length bs <= S (length builds))
    (extract_build w self index item url builds).
Proof.
  intros H. assert (Same : Forall (listed_in url) builds /\ length builds <= S (length builds))
    by (split; [exact H | lia]).
  assert (More : forall b, listed_in url b ->
                 Forall (listed_in url) (builds ++ [b]) /\
                 length (builds ++ [b]) <= S (length builds)).
  { intros b Hb. split.
    - apply Forall_app. split; [exact H | constructor; [exact Hb | constructor]].
    - rewrite length_app. simpl. lia. }
  unfold extract_build. apply yields_try; [|intros; now apply yields_ret].
  eapply yields_bind; [apply _extract_build_info_listed|].
  intros [b|] Hb; [|now apply yields_ret].
  specialize (Hb b eq_refl).
  destruct (nonempty (build_url b)); [|apply yields_ret; now apply More].
  apply yields_try; [|intros; now apply yields_ret].
  eapply yields_bind; [apply yields_any|]. intros [[imgs tgs]|] _; [|now apply yields_ret].
  destruct (is_nil imgs || is_nil tgs); [now apply yields_ret|].
  apply yields_ret. apply More. now apply listed_with_detail.
Qed.

Lemma extract_each_listed w self items : forall index url builds,
  Forall (listed_in url) builds ->
  yields (fun bs => Forall (listed_in url) bs /\ length bs <= length builds + length items)
    (extract_each w self index items url builds).
Proof.
  induction items as [|item items IH]; intros index url builds H; simpl.
  - apply yields_ret. split; [exact H | lia].
  - eapply yields_bind; [apply extract_build_listed; exact H|].
    intros bs [Hbs Lbs] s a s' E.
    destruct (IH (S index) url bs Hbs s a s' E) as [F L]. split; [exact F | lia].
Qed.

(** X8.  The builds that [extract_builds_from_category] returns come from
    the product boxes of the page, at most one per box: each has a non-empty
    title (a missing one reads [Unknown Build]), a non-empty URL, the URL of
    the category it was listed in, at least one tag and one image URL, and
    no local image yet.  When the category page cannot be fetched the list
    is empty. *)
Theorem extracted_builds_are_well_formed (w : World) (self : Scraper) (url : string)
    (s : St) (builds : list Build) (s' : St)
    (Hdone : extract_builds_from_category w self url s = (Done builds, s')) :
  Forall (listed_in url) builds /\
  Forall kept builds /\
  (pages w url = None -> builds = []) /\
  (forall soup, pages w url = Some soup -> length builds <= length (product_boxes soup)).
Proof.
  split; [|split; [eapply extract_builds_from_category_kept; eauto|]].
  - revert Hdone. unfold extract_builds_from_category.
    apply yields_try; [|intros; apply yields_ret; constructor].
    eapply yields_bind; [apply yields_any|].
    intros [soup|] _; [|apply yields_ret; constructor].
    intros s0 a s1 E. now destruct (@extract_each_listed w self (product_boxes soup) 0 url []
                                      (Forall_nil _) s0 a s1 E).
  - unfold extract_builds_from_category in Hdone.
    unfold try_except, bind in Hdone. rewrite fetch_page_eq in Hdone.
    destruct (dies_at w (length (trace s))); [discriminate|].
    destruct (pages w url) as [soup|].
    + split; [discriminate|]. intros soup' E. inversion E; subst soup'.
      match type of Hdone with
      | context [extract_each w self 0 ?items url [] ?s0] =>
          pose proof (@extract_each_listed w self items 0 url [] (Forall_nil _) s0) as Y;
          destruct (extract_each w self 0 items url [] s0) as [[bs|e|] s2]
      end; simpl in Hdone; inversion Hdone; subst.
      * destruct (Y _ _ eq_refl) as [_ L]. exact L.
      * simpl. lia.
    + inversion Hdone; subst. split; [reflexivity|]. discriminate.
Qed.

Lemma extracted_builds_are_well_formed_witness :
  exists builds s',
    extract_builds_from_category (Fixture.world (Fixture.site "") true None)
      (scraper_of Fixture.config Fixture.fresh) "http://g/A" (boot Fixture.fresh)
    = (Done builds, s') /\
    Forall (listed_in "http://g/A") builds /\ length builds = 1.
Proof.
  eexists. eexists. split; [vm_compute; reflexivity|].
  split; [|reflexivity].
  eapply (@extracted_builds_are_well_formed (Fixture.world (Fixture.site "") true None)
            (scraper_of Fixture.config Fixture.fresh) "http://g/A" (boot Fixture.fresh)).
  vm_compute. reflexivity.
Defined.

(** X9.  A product box with a link that [urljoin] resolves to a non-empty
    URL costs exactly one request, for its detail page, and is kept exactly
    when that page can be fetched and shows at least one image and one tag;
    the build then carries the images and tags of the page.  A box without a
    link, or whose link resolves to the empty URL or makes [urljoin] raise, is
    dropped without any request. *)
Theorem box_is_kept_iff_detail_is_complete (w : World) (self : Scraper) (index : nat)
    (text href url : string) (builds : list Build) (s : St)
    (Halive : kill_at w = None) :
  (urljoin_raises w (base_url self) href = false ->
   nonempty (urljoin w (base_url self) href) = true ->
   exists bs,
     extract_build w self index (Some (text, href)) url builds s
     = (Done bs, set_trace (trace s ++ [EFetch (urljoin w (base_url self) href)]) s) /\
     match pages w (urljoin w (base_url self) href) with
     | None => bs = builds
     | Some soup =>
         let imgs := match main_pics soup with Some srcs => srcs | None => [] end in
         let tgs := match tags_td soup with Some t => parse_tags t | None => [] end in
         if is_nil imgs || is_nil tgs then bs = builds
         else exists b,
             bs = builds ++ [b] /\
             title b = (if nonempty text then text else "Unknown Build") /\
             build_url b = urljoin w (base_url self) href /\
             category_url b = url /\ tags b = tgs /\ image_urls b = imgs
     end) /\
  (nonempty (urljoin w (base_url self) href) = false ->
   extract_build w self index (Some (text, href)) url builds s = (Done builds, s)) /\
  (urljoin_raises w (base_url self) href = true ->
   extract_build w self index (Some (text, href)) url builds s = (Done builds, s)) /\
  extract_build w self index None url builds s = (Done builds, s).
Proof.
  split; [|split; [|split]].
  - intros Hj Hu.
    unfold extract_build, _extract_build_info, _extract_images_and_tags,
      try_except, clock, bind, gets, ret. rewrite Hj, Hu. simpl. rewrite Hu.
    rewrite fetch_page_eq, (@never_dies w _ Halive).
    destruct (pages w (urljoin w (base_url self) href)) as [soup|]; simpl.
    + destruct (is_nil _ || is_nil _) eqn:E; simpl.
      * eexists. split; [reflexivity|]. reflexivity.
      * eexists. split; [reflexivity|]. eexists. split; [reflexivity|].
        repeat split.
    + eexists. split; reflexivity.
  - intros Hu.
    unfold extract_build, _extract_build_info, try_except, clock, bind, gets, ret.
    rewrite Hu. destruct (urljoin_raises w (base_url self) href); reflexivity.
  - intros Hj.
    unfold extract_build, _extract_build_info, try_except, clock, bind, gets, ret.
    rewrite Hj. reflexivity.
  - reflexivity.
Qed.

Lemma box_is_kept_iff_detail_is_complete_witness :
  exists bs s',
    extract_build (Fixture.world (Fixture.site "") true None)
      (scraper_of Fixture.config Fixture.fresh) 1 (Some ("two", "/i2")) "http://g/A" []
      (boot Fixture.fresh) = (Done bs, s') /\ bs = [].
Proof.
  destruct (@box_is_kept_iff_detail_is_complete (Fixture.world (Fixture.site "") true None)
              (scraper_of Fixture.config Fixture.fresh) 1 "two" "/i2" "http://g/A" []
              (boot Fixture.fresh) eq_refl) as (H & _).
  destruct (H eq_refl eq_refl) as (bs & E & D).
  exists bs. eexists. split; [exact E|]. exact D.
Defined.

(** *** Counting the attempts *)

Lemma sum_images_app l1 l2 : sum_images (l1 ++ l2) = sum_images l1 + sum_images l2.
Proof. induction l1 as [|b l1 IH]; simpl; [reflexivity|]. rewrite IH. lia. Qed.

Lemma with_images_of_app l1 l2 :
  with_images_of (l1 ++ l2) = with_images_of l1 ++ with_images_of l2.
Proof. apply filter_app. Qed.

Lemma progress_same s s' :
  metadata s' = metadata s -> results s' = results s -> progress 0 s s'.
Proof.
  intros HM HR. constructor; rewrite ?HR; try lia; try reflexivity.
  exists []. rewrite HM, app_nil_r. simpl. repeat split; lia.
Qed.

Lemma progress_trans k1 k2 s1 s2 s3 :
  progress k1 s1 s2 -> progress k2 s2 s3 -> progress (k1 + k2) s1 s3.
Proof.
  intros [(st1 & M1 & L1 & I1 & S1) T1 O1 A1] [(st2 & M2 & L2 & I2 & S2) T2 O2 A2].
  constructor; try lia; try congruence.
  exists (st1 ++ st2). split; [rewrite M2, M1; symmetry; apply app_assoc|].
  rewrite length_app, sum_images_app, with_images_of_app, length_app. repeat split; lia.
Qed.

Lemma quiet_progress s s' : quiet s s' -> progress 0 s s'.
Proof. intros [QM QR _ _ _]. now apply progress_same. Qed.

Lemma build_step_progress w c n i b s s' :
  build_step w c n i b s (Done tt) s' -> progress 1 s s'.
Proof.
  intros St.
  inversion St as [s1 b' reqs ck SI CNT HM HR HQ HT HC HN HP HG HF | ]; subst.
  constructor; rewrite HR; unfold tally;
    destruct (Nat.ltb 0 (images_count b')) eqn:L; simpl; try lia; try reflexivity.
  - exists [b']. split; [exact HM|]. unfold with_images_of. simpl. rewrite L. simpl.
    repeat split; lia.
  - exists [b']. split; [exact HM|]. unfold with_images_of. simpl. rewrite L. simpl.
    apply Nat.ltb_ge in L. repeat split; lia.
Qed.

Lemma scrape_builds_progress w self c n builds : forall i s,
  match scrape_builds w self c n i builds s with
  | (Done _, s') => progress (length builds) s s'
  | (Raised _, _) => False
  | (Killed, _) => True
  end.
Proof.
  induction builds as [|b builds IH]; intros i s; simpl.
  - now apply progress_same.
  - unfold bind. pose proof (scrape_build_step w self c n i b s) as St.
    destruct (scrape_build w self c n i b s) as [[[]|e|] s1]; simpl in St;
      [|inversion St|exact I].
    specialize (IH (S i) s1).
    destruct (scrape_builds w self c n (S i) builds s1) as [[[]|e|] s2]; auto.
    change (S (length builds)) with (1 + length builds).
    eapply progress_trans; [eapply build_step_progress; eauto | exact IH].
Qed.

Lemma scrape_category_progress w self m n c url s :
  match scrape_category w self m n c url s with
  | (Done _, s') => exists k, k <= m /\ progress k s s'
  | (Raised _, _) => False
  | (Killed, _) => True
  end.
Proof.
  unfold scrape_category, bind, emit, try_except.
  destruct (dies_at w (length (trace s))); [exact I|].
  set (s1 := set_trace _ s).
  assert (P1 : progress 0 s s1) by (apply progress_same; reflexivity).
  destruct (tame_extract_builds_from_category w self url s1) as [Q _].
  destruct (extract_builds_from_category w self url s1) as [[builds|e|] s2] eqn:E;
    simpl in *; [| |exact I].
  - pose proof (scrape_builds_progress w self c n (firstn m builds) 0 s2) as L.
    destruct (scrape_builds w self c n 0 (firstn m builds) s2) as [[[]|e|] s3];
      [|contradiction|exact I].
    exists (length (firstn m builds)). split; [rewrite length_firstn; lia|].
    change (length (firstn m builds)) with (0 + (0 + length (firstn m builds))).
    eapply progress_trans; [exact P1|].
    eapply progress_trans; [apply quiet_progress; exact Q | exact L].
  - now apply extract_builds_from_category_never_raises in E.
Qed.

Lemma scrape_categories_progress w self m n urls : forall c s,
  match scrape_categories w self m n c urls s with
  | (Done _, s') => exists k, k <= m * length urls /\ progress k s s'
  | (Raised _, _) => False
  | (Killed, _) => True
  end.
Proof.
  induction urls as [|url urls IH]; intros c s; simpl.
  - exists 0. split; [lia | now apply progress_same].
  - unfold bind. pose proof (scrape_category_progress w self m n c url s) as L.
    destruct (scrape_category w self m n c url s) as [[[]|e|] s1];
      [|contradiction|exact I].
    destruct L as (k1 & L1 & P1). specialize (IH (S c) s1).
    destruct (scrape_categories w self m n (S c) urls s1) as [[[]|e|] s2]; auto.
    destruct IH as (k2 & L2 & P2). exists (k1 + k2). split; [nia|].
    eapply progress_trans; eauto.
Qed.

Lemma category_list_length w self n : length (category_list w self n) <= n.
Proof. apply category_list_spec. Qed.

Lemma run_progress w c d :
  match run w c d with
  | (Done r, s') =>
      r = results s' /\
      exists k,
        k <= max_builds_per_category c
             * (length (category_list w (scraper_of c d) (max_categories c))
                - start_category_idx (scraper_of c d) None) /\
        progress k (ready w c d) s'
  | _ => True
  end.
Proof.
  rewrite run_eq. cbv zeta.
  destruct (dies_at w 0); [exact I|].
  set (s1 := set_trace _ _).
  assert (P1 : progress 0 (ready w c d) s1) by (apply progress_same; reflexivity).
  destruct (is_nil _) eqn:N.
  - unfold bind, emit, gets. destruct (dies_at w (length (trace s1))); [exact I|].
    simpl. split; [reflexivity|]. exists 0. split; [apply Nat.le_0_l|].
    apply progress_same; reflexivity.
  - unfold bind at 1.
    match goal with |- context [scrape_categories w ?self ?m ?n ?st ?urls s1] =>
      pose proof (scrape_categories_progress w self m n urls st s1) as L;
      destruct (scrape_categories w self m n st urls s1) as [[[]|e|] s2]
    end; [|exact I|exact I].
    destruct L as (k & Lk & Pk). rewrite length_skipn in Lk.
    assert (P2 : progress k (ready w c d) s2).
    { change k with (0 + k). eapply progress_trans; eauto. }
    unfold bind at 1. rewrite _clear_checkpoint_eq.
    assert (Fin : forall s3, metadata s3 = metadata s2 -> results s3 = results s2 ->
              match (emit w LogCompleted ;; gets results) s3 with
              | (Done r, s') =>
                  r = results s' /\
                  exists k,
                    k <= max_builds_per_category c
                         * (length (category_list w (scraper_of c d) (max_categories c))
                            - start_category_idx (scraper_of c d) None) /\
                    progress k (ready w c d) s'
              | _ => True
              end).
    { intros s3 HM HR. unfold bind, emit, gets.
      destruct (dies_at w (length (trace s3))); [exact I|]. simpl.
      split; [reflexivity|]. exists k. split; [exact Lk|].
      replace k with (k + 0) by lia. eapply progress_trans; [exact P2|].
      apply progress_same; simpl; assumption. }
    destruct (exists_ (checkpoint_file (disk s2))); [|apply Fin; reflexivity].
    destruct (dies_at w (length (trace s2))); [exact I|]. cbv zeta.
    match goal with |- context [write_fails w ?t] => destruct (write_fails w t) end;
      apply Fin; reflexivity.
Qed.

(** X10.  The summary that a run returns agrees with the store it leaves:
    total_images_downloaded is the sum of the images_count of the records
    appended during the run, successful_builds is the number of those records
    that have an image, every appended record was counted in total_builds,
    and the builds counted beyond the loaded records are exactly the
    successful and the failed ones. *)
Theorem summary_agrees_with_store (w : World) (c : Config) (d : Disk)
    (r : Results) (s' : St) (Hdone : run w c d = (Done r, s')) :
  exists stored,
    metadata s' = initial_metadata c d ++ stored /\
    total_images_downloaded r = sum_images stored /\
    successful_builds r = length (with_images_of stored) /\
    length (metadata s') <= total_builds r /\
    total_builds r = length (initial_metadata c d) + successful_builds r + failed_builds r /\
    failed_builds r
    = (total_builds r - length (metadata s'))
      + (length stored - length (with_images_of stored)).
Proof.
  pose proof (run_progress w c d) as P. rewrite Hdone in P.
  destruct P as (-> & k & _ & [(stored & M & L & Im & Su) T O A]).
  simpl in *. exists stored. split; [exact M|].
  assert (Lw : length (with_images_of stored) <= length stored)
    by apply filter_length_le.
  rewrite M, length_app. repeat split; lia.
Qed.

Lemma summary_agrees_with_store_witness :
  exists r s' stored,
    run (Fixture.world (Fixture.site "t2") true None) Fixture.config Fixture.fresh
    = (Done r, s') /\
    metadata s' = stored /\ total_images_downloaded r = sum_images stored.
Proof.
  eexists. eexists.
  match goal with
  | |- exists stored, run ?w ?c ?d = (Done ?r, ?s) /\ _ =>
      assert (E : run w c d = (Done r, s)) by (vm_compute; reflexivity);
      destruct (@summary_agrees_with_store w c d r s E) as (stored & M & Im & _)
  end.
  exists stored. split; [assumption|]. split; [exact M | exact Im].
Defined.

(** X11.  The caps bound a run: the builds attempted by one run are at
    most max_builds_per_category for each category from the start cursor on,
    hence at most max_categories times max_builds_per_category. *)
Theorem attempts_are_capped (w : World) (c : Config) (d : Disk)
    (r : Results) (s' : St) (Hdone : run w c d = (Done r, s')) :
  total_builds r
  <= length (initial_metadata c d)
     + max_builds_per_category c
       * (length (category_list w (scraper_of c d) (max_categories c))
          - start_category_idx (scraper_of c d) None) /\
  total_builds r
  <= length (initial_metadata c d) + max_builds_per_category c * max_categories c.
Proof.
  pose proof (run_progress w c d) as P. rewrite Hdone in P.
  destruct P as (-> & k & Lk & [_ T _ _]). simpl in T.
  pose proof (category_list_length w (scraper_of c d) (max_categories c)) as Lc.
  split; [lia|]. nia.
Qed.

Lemma attempts_are_capped_witness :
  exists r s',
    run (Fixture.world (Fixture.site "t2") true None)
      {| cfg_base_url := "http://g"; cfg_images_dir := "data/raw/images";
         cfg_resume := true; max_categories := 5; max_builds_per_category := 1 |}
      Fixture.fresh = (Done r, s') /\
    total_builds r <= 5.
Proof.
  eexists. eexists.
  match goal with
  | |- run ?w ?c ?d = (Done ?r, ?s) /\ _ =>
      assert (E : run w c d = (Done r, s)) by (vm_compute; reflexivity);
      destruct (@attempts_are_capped w c d r s E) as (_ & B)
  end.
  split; [assumption | exact B].
Defined.

(** *** Statistics *)

Lemma bump_keys tag l k : In k (map fst (bump tag l)) <-> k = tag \/ In k (map fst l).
Proof.
  induction l as [|[key n] l IH]; simpl.
  - split; [intros [H|[]]; auto | intros [H|[]]; auto].
  - destruct (String.eqb key tag) eqn:E; simpl.
    + apply String.eqb_eq in E. subst. intuition congruence.
    + rewrite IH. intuition congruence.
Qed.

Lemma bump_NoDup tag l : NoDup (map fst l) -> NoDup (map fst (bump tag l)).
Proof.
  induction l as [|[key n] l IH]; simpl; intros H.
  - constructor; [intros [] | constructor].
  - inversion H as [|? ? Hn Hl]; subst.
    destruct (String.eqb key tag) eqn:E; simpl; [constructor; assumption|].
    constructor; [|now apply IH].
    rewrite bump_keys. intros [->|Hin]; [|contradiction].
    rewrite String.eqb_refl in E. discriminate.
Qed.

Lemma bump_count tag l t :
  tag_count t (bump tag l) = (if String.eqb tag t then 1 else 0) + tag_count t l.
Proof.
  induction l as [|[key n] l IH]; simpl.
  - destruct (String.eqb tag t); reflexivity.
  - destruct (String.eqb key tag) eqn:E; simpl.
    + apply String.eqb_eq in E. subst key. destruct (String.eqb tag t); reflexivity.
    + destruct (String.eqb key t) eqn:E'; [|exact IH].
      apply String.eqb_eq in E'. subst key. rewrite String.eqb_sym, E. reflexivity.
Qed.

Lemma bump_sum tag l : sum_counts (bump tag l) = S (sum_counts l).
Proof.
  induction l as [|[key n] l IH]; simpl; [reflexivity|].
  destruct (String.eqb key tag); simpl; [reflexivity|]. rewrite IH. lia.
Qed.

Lemma bump_all l : forall acc,
  NoDup (map fst acc) ->
  let out := fold_left (fun all_tags tag => bump tag all_tags) l acc in
  NoDup (map fst out) /\
  (forall t, tag_count t out = tag_count t acc + occurrences t l) /\
  sum_counts out = sum_counts acc + length l /\
  (forall k, In k (map fst out) <-> In k (map fst acc) \/ In k l).
Proof.
  induction l as [|tag l IH]; intros acc H; simpl.
  - repeat split; auto; try lia. tauto.
  - destruct (IH (bump tag acc) (bump_NoDup tag acc H)) as (N & C & S & K).
    split; [exact N|]. split; [|split].
    + intros t. rewrite C, bump_count. lia.
    + rewrite S, bump_sum. lia.
    + intros k. rewrite K, bump_keys. intuition.
Qed.

Lemma count_all l : forall acc,
  NoDup (map fst (fst acc)) ->
  let out := fold_left count_build l acc in
  NoDup (map fst (fst out)) /\
  (forall t, tag_count t (fst out)
             = tag_count t (fst acc) + occurrences t (all_tags_of l)) /\
  sum_counts (fst out) = sum_counts (fst acc) + length (all_tags_of l) /\
  (forall k, In k (map fst (fst out)) <-> In k (map fst (fst acc)) \/ In k (all_tags_of l)) /\
  snd out = snd acc + sum_images l.
Proof.
  assert (Occ : forall t l1 l2, occurrences t (l1 ++ l2)
                                = occurrences t l1 + occurrences t l2).
  { intros t l1 l2. induction l1 as [|x l1 IH1]; simpl; [reflexivity|]. rewrite IH1. lia. }
  induction l as [|b l IH]; intros acc H; simpl.
  - repeat split; auto; try lia. tauto.
  - destruct (bump_all (tags b) (fst acc) H) as (N1 & C1 & S1 & K1).
    destruct (IH (count_build acc b) N1) as (N & C & S & K & I).
    unfold all_tags_of in *. simpl in *.
    split; [exact N|]. split; [|split; [|split]].
    + intros t. rewrite C, C1, Occ. lia.
    + rewrite S, S1, length_app. lia.
    + intros k. rewrite K, K1, in_app_iff. tauto.
    + rewrite I. lia.
Qed.

Lemma get_statistics_eq self path s :
  exists st,
    get_statistics self path s = (Done st, s) /\
    Stats.total_builds st = length (metadata s) /\
    Stats.total_images st = sum_images (metadata s) /\
    NoDup (map fst (Stats.tags st)) /\
    (forall t, tag_count t (Stats.tags st) = occurrences t (all_tags_of (metadata s))) /\
    (forall t, In t (map fst (Stats.tags st)) <-> In t (all_tags_of (metadata s))) /\
    sum_counts (Stats.tags st) = length (all_tags_of (metadata s)) /\
    (metadata s = [] ->
     Stats.unique_tags st = None /\ Stats.images_dir st = None /\
     Stats.metadata_file st = None) /\
    (metadata s <> [] ->
     Stats.unique_tags st = Some (length (Stats.tags st)) /\
     Stats.images_dir st = Some (images_dir self) /\
     Stats.metadata_file st = Some path).
Proof.
  unfold get_statistics, bind, gets.
  destruct (metadata s) as [|b l] eqn:M; simpl is_nil; cbv iota.
  - eexists. split; [reflexivity|]. simpl.
    repeat split; auto; try constructor; try tauto; try (intros H; now elim H).
  - destruct (@count_all (b :: l) ([], 0) (NoDup_nil _)) as (N & C & S & K & I).
    destruct (fold_left count_build (b :: l) ([], 0)) as [all_tags total_images].
    eexists. split; [reflexivity|]. simpl in *.
    repeat split; auto; try discriminate.
    + intros H. apply K in H. tauto.
    + intros H. apply K. auto.
Qed.

(** X12.  [get_statistics] never changes the state and never raises.  It
    reports the number of stored records and the sum of their images_count;
    its tag table has one entry per distinct tag, whose count is the number
    of times the tag occurs over all the records, so that the counts add up
    to the number of tags stored.  On an empty store the table is empty and
    the keys unique_tags, images_dir and metadata_file are absent. *)
Theorem statistics_count_records_images_and_tags (self : Scraper) (path : string) (s : St) :
  exists st,
    get_statistics self path s = (Done st, s) /\
    Stats.total_builds st = length (metadata s) /\
    Stats.total_images st = sum_images (metadata s) /\
    NoDup (map fst (Stats.tags st)) /\
    (forall t, tag_count t (Stats.tags st) = occurrences t (all_tags_of (metadata s))) /\
    (forall t, In t (map fst (Stats.tags st)) <-> In t (all_tags_of (metadata s))) /\
    sum_counts (Stats.tags st) = length (all_tags_of (metadata s)) /\
    (metadata s = [] ->
     Stats.unique_tags st = None /\ Stats.images_dir st = None /\
     Stats.metadata_file st = None) /\
    (metadata s <> [] ->
     Stats.unique_tags st = Some (length (Stats.tags st)) /\
     Stats.images_dir st = Some (images_dir self) /\
     Stats.metadata_file st = Some path).
Proof. apply get_statistics_eq. Qed.

(** X13.  After a run, the statistics agree with the summary: the total of
    images is the total of the records loaded at the start plus
    total_images_downloaded, and the number of records is at most
    total_builds; on a run that did not resume, total_images is exactly
    total_images_downloaded. *)
Theorem statistics_agree_with_summary (w : World) (c : Config) (d : Disk)
    (r : Results) (s' : St) (path : string)
    (Hdone : run w c d = (Done r, s')) :
  exists st,
    get_statistics (scraper_of c d) path s' = (Done st, s') /\
    Stats.total_images st = sum_images (initial_metadata c d) + total_images_downloaded r /\
    Stats.total_builds st <= total_builds r /\
    (resuming (scraper_of c d) None = false ->
     Stats.total_images st = total_images_downloaded r).
Proof.
  pose proof (run_progress w c d) as P. rewrite Hdone in P.
  destruct P as (-> & k & _ & [(stored & M & L & Im & Su) T O A]). simpl in *.
  destruct (get_statistics_eq (scraper_of c d) path s') as (st & E & B & I & _).
  exists st. split; [exact E|].
  rewrite I, B, M, sum_images_app, length_app.
  split; [lia|]. split; [lia|].
  intros F. unfold initial_metadata. rewrite F. simpl. lia.
Qed.

Lemma statistics_agree_with_summary_witness :
  exists r s' st,
    run (Fixture.world (Fixture.site "t2") true None) Fixture.config Fixture.fresh
    = (Done r, s') /\
    get_statistics (scraper_of Fixture.config Fixture.fresh) "m.json" s' = (Done st, s') /\
    Stats.total_images st = total_images_downloaded r.
Proof.
  eexists. eexists.
  match goal with
  | |- exists st, run ?w ?c ?d = (Done ?r, ?s) /\ _ =>
      assert (E : run w c d = (Done r, s)) by (vm_compute; reflexivity);
      destruct (@statistics_agree_with_summary w c d r s "m.json" E) as (st & G & _ & _ & F)
  end.
  exists st. split; [assumption|]. split; [exact G|]. apply F. reflexivity.
Defined.

(** *** The order of the traversal *)










(** X15.  When the checkpoint holds a category index that is not below the
    number of categories found (and the process is not killed), the run
    processes no category and attempts no build: it requests the home page,
    removes the checkpoint and returns the summary it started with, leaving
    the store and the metadata file as they were. *)
Theorem cursor_past_the_end_skips_everything (w : World) (c : Config) (d : Disk)
    (Halive : kill_at w = None)
    (Hfound : category_list w (scraper_of c d) (max_categories c) <> [])
    (Hpast : length (category_list w (scraper_of c d) (max_categories c))
             <= start_category_idx (scraper_of c d) None) :
  exists s',
    run w c d = (Done (results (ready w c d)), s') /\
    metadata s' = initial_metadata c d /\
    metadata_file (disk s') = metadata_file d /\
    image_files (disk s') = image_files d /\
    trace s' = [EFetch (cfg_base_url c); EUnlinkCheckpoint; LogCompleted] /\
    (write_fails w 2 = false -> checkpoint_file (disk s') = Missing).
Proof.
  assert (X : exists_ (checkpoint_file d) = true).
  { destruct (category_list w (scraper_of c d) (max_categories c)) as [|u l] eqn:E;
      [now elim Hfound|].
    simpl in Hpast. unfold start_category_idx, scraper_of, loaded_checkpoint in Hpast.
    simpl in Hpast. destruct (checkpoint_file d); simpl in Hpast; try lia. reflexivity. }
  rewrite run_eq. cbv zeta. rewrite (@never_dies w _ Halive).
  destruct (is_nil _) eqn:N; [apply is_nil_true in N; contradiction|].
  rewrite skipn_all2 by exact Hpast. simpl scrape_categories.
  unfold bind, ret. rewrite _clear_checkpoint_eq. simpl disk. rewrite X.
  rewrite (@never_dies w _ Halive). cbv zeta. unfold emit, gets.
  simpl.
  destruct (write_fails w 2) eqn:W; simpl; rewrite (@never_dies w _ Halive); simpl;
    eexists; (split; [reflexivity|]); simpl; repeat split; auto; discriminate.
Qed.

Lemma cursor_past_the_end_skips_everything_witness :
  exists s',
    run (Fixture.world (Fixture.site "t2") true None) Fixture.config (disk_with_cursor 5)
    = (Done (results (ready (Fixture.world (Fixture.site "t2") true None)
                        Fixture.config (disk_with_cursor 5))), s') /\
    checkpoint_file (disk s') = Missing.
Proof.
  destruct (@cursor_past_the_end_skips_everything
              (Fixture.world (Fixture.site "t2") true None) Fixture.config
              (disk_with_cursor 5) eq_refl) as (s' & E & _ & _ & _ & _ & M).
  - vm_compute. discriminate.
  - vm_compute. repeat constructor.
  - exists s'. split; [exact E|]. apply M. reflexivity.
Defined.

(** *** What a run that does not resume never reads *)

Section Respects.

Variable w : World.

Lemma respects_ret {A} (a : A) : respects (ret a).
Proof. intros s1 s2 H. split; [reflexivity | exact H]. Qed.

Lemma respects_raise {A} e : respects (@raise A e).
Proof. intros s1 s2 H. split; [reflexivity | exact H]. Qed.

Lemma respects_bind {A B} (m : M A) (f : A -> M B) :
  respects m -> (forall a, respects (f a)) -> respects (bind m f).
Proof.
  intros Hm Hf s1 s2 H. unfold bind. destruct (Hm s1 s2 H) as [E R].
  destruct (m s1) as [[a1|e1|] t1], (m s2) as [[a2|e2|] t2]; simpl in *;
    try discriminate; inversion E; subst; auto.
  now apply Hf.
Qed.

Lemma respects_try {A} cls (body : M A) handler :
  respects body -> (forall e, respects (handler e)) ->
  respects (try_except cls body handler).
Proof.
  intros Hm Hh s1 s2 H. unfold try_except. destruct (Hm s1 s2 H) as [E R].
  destruct (body s1) as [[a1|e1|] t1], (body s2) as [[a2|e2|] t2]; simpl in *;
    try discriminate; inversion E; subst; auto.
  destruct (cls e2); [now apply Hh | auto].
Qed.

Lemma respects_gets {A} (f : St -> A) :
  (forall s1 s2, alike s1 s2 -> f s1 = f s2) -> respects (gets f).
Proof. intros Hf s1 s2 H. unfold gets. simpl. split; [f_equal; auto | exact H]. Qed.

Lemma respects_modify (f : St -> St) :
  (forall s1 s2, alike s1 s2 -> alike (f s1) (f s2)) -> respects (modify f).
Proof. intros Hf s1 s2 H. unfold modify. simpl. split; [reflexivity | auto]. Qed.

Lemma respects_emit e : respects (emit w e).
Proof.
  intros s1 s2 H. unfold emit. destruct H as [HM HR HT HC HI]. rewrite HT.
  destruct (dies_at w (length (trace s2))); simpl.
  - split; [reflexivity | constructor; assumption].
  - split; [reflexivity | constructor; simpl; congruence].
Qed.

Lemma respects_disk_op f :
  (forall d1 d2, checkpoint_file d1 = checkpoint_file d2 ->
                 image_files d1 = image_files d2 ->
                 checkpoint_file (f d1) = checkpoint_file (f d2) /\
                 image_files (f d1) = image_files (f d2)) ->
  respects (disk_op w f).
Proof.
  intros Hf s1 s2 H. unfold disk_op. destruct H as [HM HR HT HC HI]. rewrite HT.
  destruct (write_fails w (length (trace s2))); simpl.
  - split; [reflexivity | constructor; assumption].
  - destruct (Hf _ _ HC HI). split; [reflexivity | constructor; simpl; assumption].
Qed.

Lemma respects_write_json {A} (set_file : file A -> Disk -> Disk) (content : A) :
  (forall f d1 d2, checkpoint_file d1 = checkpoint_file d2 ->
                   image_files d1 = image_files d2 ->
                   checkpoint_file (set_file f d1) = checkpoint_file (set_file f d2) /\
                   image_files (set_file f d1) = image_files (set_file f d2)) ->
  respects (write_json w set_file content).
Proof.
  intros Hf s1 s2 H. unfold write_json. destruct H as [HM HR HT HC HI]. rewrite HT.
  destruct (write_fails w (length (trace s2))); simpl.
  - destruct (write_tears w (length (trace s2))).
    + destruct (Hf Malformed _ _ HC HI).
      split; [reflexivity | constructor; simpl; assumption].
    + split; [reflexivity | constructor; assumption].
  - destruct (Hf (Holds content) _ _ HC HI).
    split; [reflexivity | constructor; simpl; assumption].
Qed.

Ltac insensitive :=
  solve [ intros ? ? [? ? ? ? ?]; simpl; congruence
        | intros ? ? [? ? ? ? ?]; constructor; simpl; congruence
        | intros ? ? ? ?; simpl; split; congruence
        | intros ? ? ? ?; unfold add_image_file, set_checkpoint_file, set_metadata_file; simpl; split; congruence ].

Ltac respects_step :=
  lazymatch goal with
  | |- respects (ret _) => apply respects_ret
  | |- respects (raise _) => apply respects_raise
  | |- respects (gets _) => apply respects_gets; insensitive
  | |- respects clock => apply respects_gets; insensitive
  | |- respects (modify _) => apply respects_modify; insensitive
  | |- respects (update_results _) => apply respects_modify; insensitive
  | |- respects (emit _ _) => apply respects_emit
  | |- respects (disk_op _ _) => apply respects_disk_op; insensitive
  | |- respects (write_json _ _ _) =>
      apply respects_write_json; intros ? ? ? ? ?; simpl; split; congruence
  | |- respects (bind _ _) => apply respects_bind; [|intros ?]
  | |- respects (try_except _ _ _) => apply respects_try; [|intros ?]
  | |- respects (if ?x then _ else _) => destruct x
  | |- respects (match ?x with _ => _ end) => destruct x
  end.

Ltac respects_with lem := repeat first [ apply lem | respects_step ].

Lemma respects__save_checkpoint c i n : respects (_save_checkpoint w c i n).
Proof. unfold _save_checkpoint. repeat respects_step. Qed.

Lemma respects__clear_checkpoint : respects (_clear_checkpoint w).
Proof. unfold _clear_checkpoint. repeat respects_step. Qed.

Lemma respects__save_metadata : respects (_save_metadata w).
Proof. unfold _save_metadata. repeat respects_step. Qed.

Lemma respects_fetch_page url : respects (fetch_page w url).
Proof. unfold fetch_page. repeat respects_step. Qed.

Variable self : Scraper.

Lemma respects_extract_build index item url builds :
  respects (extract_build w self index item url builds).
Proof.
  unfold extract_build, _extract_build_info, _extract_images_and_tags.
  respects_with respects_fetch_page.
Qed.

Lemma respects_extract_each items : forall index url builds,
  respects (extract_each w self index items url builds).
Proof.
  induction items as [|item items IH]; intros; simpl.
  - respects_step.
  - respects_step; [apply respects_extract_build | apply IH].
Qed.

Lemma respects_extract_builds_from_category url :
  respects (extract_builds_from_category w self url).
Proof.
  unfold extract_builds_from_category.
  repeat first [ apply respects_fetch_page | apply respects_extract_each | respects_step ].
Qed.

Lemma respects_acquire url p b : respects (acquire w url p b).
Proof. unfold acquire, download_image. repeat respects_step. Qed.

Lemma respects_download_each urls : forall dir idx b,
  respects (download_each w dir idx urls b).
Proof.
  induction urls as [|url urls IH]; intros; simpl.
  - respects_step.
  - respects_step; [|apply IH]. respects_with respects_acquire.
Qed.

Lemma respects_download_all_images_for_build b idx :
  respects (download_all_images_for_build w self b idx).
Proof. unfold download_all_images_for_build. respects_with respects_download_each. Qed.

Lemma respects_scrape_build c n i b : respects (scrape_build w self c n i b).
Proof.
  unfold scrape_build.
  repeat first [ apply respects_download_all_images_for_build
               | apply respects__save_metadata | apply respects__save_checkpoint
               | respects_step ].
Qed.

Lemma respects_scrape_builds c n builds : forall i, respects (scrape_builds w self c n i builds).
Proof.
  induction builds as [|b builds IH]; intros; simpl.
  - respects_step.
  - respects_step; [apply respects_scrape_build | apply IH].
Qed.

Lemma respects_scrape_category m n c url : respects (scrape_category w self m n c url).
Proof.
  unfold scrape_category.
  repeat first [ apply respects_extract_builds_from_category | apply respects_scrape_builds
               | apply respects__save_checkpoint | respects_step ].
Qed.

Lemma respects_scrape_categories m n urls : forall c,
  respects (scrape_categories w self m n c urls).
Proof.
  induction urls as [|url urls IH]; intros; simpl.
  - respects_step.
  - respects_step; [apply respects_scrape_category | apply IH].
Qed.

End Respects.

(** X16.  A run that does not resume (no usable checkpoint, or resume
    disabled) never reads the metadata file: whatever that file holds, the
    run returns the same summary, ends with the same store, makes the same
    requests and writes in the same order, and leaves the same checkpoint and
    image files.  The records of an earlier run that the file held are not
    part of the store, so the first write of the metadata replaces them. *)
Theorem fresh_run_ignores_metadata_file (w : World) (c : Config) (d : Disk)
    (f : file (list Build))
    (Hfresh : resuming (scraper_of c d) None = false) :
  fst (run w c (set_metadata_file f d)) = fst (run w c d) /\
  alike (snd (run w c (set_metadata_file f d))) (snd (run w c d)) /\
  initial_metadata c (set_metadata_file f d) = [].
Proof.
  assert (I0 : initial_metadata c d = [])
    by (unfold initial_metadata; now rewrite Hfresh).
  assert (I1 : initial_metadata c (set_metadata_file f d) = [])
    by (unfold initial_metadata;
        change (scraper_of c (set_metadata_file f d)) with (scraper_of c d);
        now rewrite Hfresh).
  split; [|split; [|exact I1]].
  all: rewrite !run_eq; cbv zeta;
    change (scraper_of c (set_metadata_file f d)) with (scraper_of c d);
    set (self := scraper_of c d);
    assert (A0 : alike (ready w c (set_metadata_file f d)) (ready w c d))
      by (unfold ready; rewrite I0, I1; constructor; reflexivity);
    destruct (dies_at w 0); [first [reflexivity | exact A0]|];
    assert (A1 : alike (set_trace [EFetch (cfg_base_url c)]
                          (ready w c (set_metadata_file f d)))
                   (set_trace [EFetch (cfg_base_url c)] (ready w c d)))
      by (destruct A0; constructor; simpl; first [assumption | reflexivity]);
    match goal with
    | |- context [if ?b then ?m1 _ else ?m2 _] =>
        assert (R1 : respects m1)
          by (apply respects_bind; [apply respects_emit|];
              intros ?; apply respects_gets; intros ? ? []; assumption);
        assert (R2 : respects m2)
          by (apply respects_bind; [apply respects_scrape_categories|]; intros ?;
              apply respects_bind; [apply respects__clear_checkpoint|]; intros ?;
              apply respects_bind; [apply respects_emit|]; intros ?;
              apply respects_gets; intros ? ? []; assumption);
        destruct b; [apply (R1 _ _ A1) | apply (R2 _ _ A1)]
    end.
Qed.

Lemma fresh_run_ignores_metadata_file_witness :
  fst (run (Fixture.world (Fixture.site "t2") true None)
         {| cfg_base_url := "http://g"; cfg_images_dir := "data/raw/images";
            cfg_resume := false; max_categories := 100; max_builds_per_category := 100 |}
         (set_metadata_file Malformed disk_of_a_stopped_run))
  = fst (run (Fixture.world (Fixture.site "t2") true None)
           {| cfg_base_url := "http://g"; cfg_images_dir := "data/raw/images";
              cfg_resume := false; max_categories := 100; max_builds_per_category := 100 |}
           disk_of_a_stopped_run).
Proof.
  apply (@fresh_run_ignores_metadata_file (Fixture.world (Fixture.site "t2") true None)
           {| cfg_base_url := "http://g"; cfg_images_dir := "data/raw/images";
              cfg_resume := false; max_categories := 100; max_builds_per_category := 100 |}
           disk_of_a_stopped_run Malformed).
  reflexivity.
Defined.
